(** * hama_proxy: a shallow embedding of [src/server.ts]

    The gateway is a TypeScript program.  Its pure parts (name splitting,
    reply normalization, the replay loop) become Rocq functions; its stateful
    parts (the event map, the connection registry, the session registries,
    the transport's [onmessage] slot) become explicit state that the
    functions take and return.  Everything the program obtains from outside
    (the clock, the random source, the outcome of a backend call) is an
    argument of the function that uses it. *)

From Stdlib Require Import Ascii String.
From stdpp Require Import base option list strings gmap sorting pretty.

Local Open Scope stdpp_scope.
Set Warnings "-clear-no-such-hyp,-register-all".

(** ** JavaScript strings

    Strings are byte strings (UTF-8); the separators the program looks for
    are ASCII, so searching and splitting bytes is searching and splitting
    code units. *)
Module JSString.

(** The line feed, written [\n] in the source. *)
Definition nl : string := String "010"%char EmptyString.

(** [s.includes(c)] for a one-character needle. *)
Fixpoint includes (c : ascii) (s : string) : bool :=
  match s with
  | EmptyString => false
  | String a s' => if Ascii.eqb a c then true else includes c s'
  end.

(** [s.split(c)] for a one-character separator: the string is cut at
    EVERY occurrence of the separator. *)
Fixpoint split (sep : ascii) (s : string) : list string :=
  match s with
  | EmptyString => [EmptyString]
  | String a s' =>
      if Ascii.eqb a sep then EmptyString :: split sep s'
      else match split sep s' with
           | [] => [String a EmptyString]
           | p :: ps => String a p :: ps
           end
  end.

(** [s.split(c, limit)]: the full split, truncated to its first [limit]
    pieces (ECMAScript's limit does not stop the cutting, it drops what
    follows). *)
Definition split_limit (sep : ascii) (limit : nat) (s : string) : list string :=
  take limit (split sep s).

(** [!s] for a string. *)
Definition is_empty (s : string) : bool :=
  match s with EmptyString => true | _ => false end.

End JSString.

(** ** JavaScript [Map]

    A [Map] iterates in insertion order and [set] on a present key replaces
    the value where the key already stands, so a map is a list of bindings
    with pairwise different keys. *)
Module JSMap.
Section Ops.
Context {V : Type}.

Definition t := list (string * V).

Definition empty : t := [].

Fixpoint get (k : string) (m : t) : option V :=
  match m with
  | [] => None
  | (k', v) :: m' => if String.eqb k' k then Some v else get k m'
  end.

Definition has (k : string) (m : t) : bool :=
  match get k m with Some _ => true | None => false end.

Fixpoint set (k : string) (v : V) (m : t) : t :=
  match m with
  | [] => [(k, v)]
  | (k', v') :: m' =>
      if String.eqb k' k then (k, v) :: m' else (k', v') :: set k v m'
  end.

Definition keys (m : t) : list string := fst <$> m.
Definition values (m : t) : list V := snd <$> m.
Definition entries (m : t) : list (string * V) := m.
Definition size (m : t) : nat := length m.
End Ops.
Arguments t : clear implicits.
End JSMap.

(** ** Collation

    [String.prototype.localeCompare] depends on the host's locale data, so
    the comparison is an interface; [CollationOrder] says that it is a total
    preorder, as a collation is.  Different strings may compare equal;
    [separates ids] says that this does not happen among [ids]. *)
Class Collation := localeCompare : string → string → comparison.

Class CollationOrder `{Collation} := {
  collate_antisym : ∀ a b, localeCompare a b = CompOpp (localeCompare b a);
  collate_trans : ∀ a b c,
    localeCompare a b ≠ Gt → localeCompare b c ≠ Gt → localeCompare a c ≠ Gt
}.

Definition separates `{Collation} (ids : list string) : Prop :=
  ∀ a b, a ∈ ids → b ∈ ids → localeCompare a b = Eq → a = b.

(** Comparison by code units, which is how the collation orders two ids that
    differ first at a digit or lower-case letter. *)
Definition code_unit_collation : Collation := String.compare.

(** ** InMemoryEventStore (lines 25-76) *)
Module InMemoryEventStore.
Section Store.
Context {JSONRPCMessage : Type}.
Context `{Collation}.

Record Entry := { message : JSONRPCMessage; streamId : string }.

(** The private field [events]. *)
Definition Events := JSMap.t Entry.

(** [generateEventId]: [now] is what [Date.now()] returned and [rnd] is
    [Math.random().toString(36).substring(2, 10)]. *)
Definition generateEventId (stream : string) (now : N) (rnd : string) : string :=
  stream +:+ "_" +:+ pretty now +:+ "_" +:+ rnd.

(** [getStreamIdFromEventId]. *)
Definition getStreamIdFromEventId (eventId : string) : string :=
  match JSString.split "_"%char eventId with
  | p :: _ => p
  | [] => ""
  end.

(** [storeEvent]: the new map and the id it returns. *)
Definition storeEvent (stream : string) (msg : JSONRPCMessage)
    (now : N) (rnd : string) (events : Events) : Events * string :=
  let eventId := generateEventId stream now rnd in
  (JSMap.set eventId {| message := msg; streamId := stream |} events, eventId).

(** The comparator handed to [sort]: [a] may stand before [b]. *)
Definition id_le (a b : string * Entry) : Prop :=
  localeCompare a.1 b.1 ≠ Gt.

#[global] Instance id_le_dec a b : Decision (id_le a b).
Proof. unfold id_le. apply _. Defined.

(** [Array.prototype.sort] is stable: of two entries that compare equal
    the one that stood first stays first.  Insertion from the right end is
    such a sort. *)
Fixpoint insert_sorted (x : string * Entry) (l : list (string * Entry))
    : list (string * Entry) :=
  match l with
  | [] => [x]
  | y :: l' => if decide (id_le x y) then x :: y :: l' else y :: insert_sorted x l'
  end.

Definition sort (l : list (string * Entry)) : list (string * Entry) :=
  foldr insert_sorted [] l.

(** [[...this.events.entries()].sort(...)] *)
Definition sortedEvents (events : Events) : list (string * Entry) :=
  sort (JSMap.entries events).

(** The [for ... of sortedEvents] loop; the result lists the calls of
    [send] in the order they are made. *)
Fixpoint replay_loop (stream lastEventId : string) (foundLastEvent : bool)
    (l : list (string * Entry)) : list (string * JSONRPCMessage) :=
  match l with
  | [] => []
  | (eventId, e) :: rest =>
      if negb (String.eqb (streamId e) stream) then
        replay_loop stream lastEventId foundLastEvent rest
      else if String.eqb eventId lastEventId then
        replay_loop stream lastEventId true rest
      else if foundLastEvent then
        (eventId, message e) :: replay_loop stream lastEventId foundLastEvent rest
      else replay_loop stream lastEventId foundLastEvent rest
  end.

(** [replayEventsAfter]: what was sent, and the string returned. *)
Definition replayEventsAfter (lastEventId : string) (events : Events)
    : list (string * JSONRPCMessage) * string :=
  if JSString.is_empty lastEventId || negb (JSMap.has lastEventId events)
  then ([], "")
  else
    let stream := getStreamIdFromEventId lastEventId in
    if JSString.is_empty stream then ([], "")
    else (replay_loop stream lastEventId false (sortedEvents events), stream).

(** One call of [storeEvent] with what the clock and the random source
    gave it. *)
Record StoreCall := {
  call_stream : string;
  call_message : JSONRPCMessage;
  call_now : N;
  call_rnd : string
}.

Definition call_id (c : StoreCall) : string :=
  generateEventId (call_stream c) (call_now c) (call_rnd c).

(** A sequence of [storeEvent] calls on a store. *)
Definition storeAll (calls : list StoreCall) (events : Events) : Events :=
  foldl (λ ev c,
    (storeEvent (call_stream c) (call_message c) (call_now c) (call_rnd c) ev).1)
    events calls.

(** What the claim of replay in recording order expects after the call
    at position [i]: the later calls on the same stream, in call order. *)
Definition recorded_after (calls : list StoreCall) (i : nat)
    : list (string * JSONRPCMessage) :=
  match calls !! i with
  | None => []
  | Some c =>
      (λ d, (call_id d, call_message d)) <$>
        filter (λ d, call_stream d = call_stream c) (drop (S i) calls)
  end.

(** Every binding of a store that [storeEvent] built is keyed by an id
    generated for its own stream, and no key stands twice. *)
Definition generated (events : Events) : Prop :=
  NoDup (JSMap.keys events) ∧
  ∀ k e, (k, e) ∈ events → ∃ now rnd, k = generateEventId (streamId e) now rnd.

(** The binding [p] is on stream [stream] and its id collates after
    [lastEventId]. *)
Definition later_on (lastEventId stream : string)
    (p : string * Entry) : Prop :=
  streamId p.2 = stream ∧ localeCompare lastEventId p.1 = Lt.

#[global] Instance later_on_dec E S p : Decision (later_on E S p).
Proof. unfold later_on. apply _. Defined.

(** What [send] is called with for a binding. *)
Definition sent_of (p : string * Entry) : string * JSONRPCMessage :=
  (p.1, message p.2).

Definition id_lt (a b : string * Entry) : Prop :=
  localeCompare a.1 b.1 = Lt.
End Store.
Arguments Entry : clear implicits.
Arguments Events : clear implicits.
Arguments StoreCall : clear implicits.
End InMemoryEventStore.

(** ** Errors and completions

    A call either returns or throws; [Completion] is the result of running a
    piece of code, and [try_catch] is the [try { } catch (error) { }] block. *)
Module JSError.
(** The fields of a thrown [Error] that the program reads; [issues] tells
    whether [error.issues] is truthy. *)
Record t := { name : string; message : string; issues : bool }.

(** [new Error(msg)]. *)
Definition Error (msg : string) : t :=
  {| name := "Error"; message := msg; issues := false |}.

(** What a property read on [null] or [undefined] throws. *)
Definition TypeError (msg : string) : t :=
  {| name := "TypeError"; message := msg; issues := false |}.
End JSError.

Inductive Completion (A : Type) : Type :=
| Normal (a : A)
| Throw (e : JSError.t).
Arguments Normal {A} a.
Arguments Throw {A} e.

#[global] Instance Completion_ret : MRet Completion := @Normal.

#[global] Instance Completion_bind : MBind Completion := λ A B k c,
  match c with
  | Normal a => k a
  | Throw e => Throw e
  end.

Definition try_catch {A} (body : Completion A) (handler : JSError.t → Completion A)
    : Completion A :=
  match body with
  | Normal a => Normal a
  | Throw e => handler e
  end.

(** ** JavaScript values

    The values a JSON-RPC reply can hold, and [undefined].  Numbers are
    IEEE doubles in the engine; the program only tests them for truthiness
    and prints them, so a number type is anything offering these
    observations. *)
Class JSNumber (number : Type) := {
  (** [!n]: zero or NaN. *)
  number_is_falsy : number → bool;
  (** neither NaN nor an infinity *)
  number_is_finite : number → bool;
  (** [String(n)] *)
  number_to_string : number → string
}.

(** Integers are numbers. *)
#[global] Instance Z_number : JSNumber Z := {
  number_is_falsy z := bool_decide (z = 0%Z);
  number_is_finite _ := true;
  number_to_string z := pretty z
}.

Module JS.
Section Values.
Context {number : Type} `{JSNumber number}.

(** An object lists its own properties in enumeration order, each key
    once. *)
Inductive Value : Type :=
| Undefined
| Null
| Bool (b : bool)
| Number (n : number)
| Str (s : string)
| Array (items : list Value)
| Object (props : list (string * Value)).

Inductive Typeof := TUndefined | TObject | TBoolean | TNumber | TString.

Definition typeof (v : Value) : Typeof :=
  match v with
  | Undefined => TUndefined
  | Null | Array _ | Object _ => TObject
  | Bool _ => TBoolean
  | Number _ => TNumber
  | Str _ => TString
  end.

(** [!!v] *)
Definition truthy (v : Value) : bool :=
  match v with
  | Undefined | Null => false
  | Bool b => b
  | Number n => negb (number_is_falsy n)
  | Str s => negb (JSString.is_empty s)
  | Array _ | Object _ => true
  end.

Definition isArray (v : Value) : bool :=
  match v with Array _ => true | _ => false end.

Fixpoint lookup_prop (k : string) (props : list (string * Value)) : Value :=
  match props with
  | [] => Undefined
  | (k', v) :: rest => if String.eqb k' k then v else lookup_prop k rest
  end.

(** [v[k]] for the property names the program reads ([content] and the
    text fields): an own property of an object; [undefined] on arrays,
    strings, numbers and booleans, which have no such property; a
    [TypeError] on [null] and [undefined]. *)
Definition get (v : Value) (k : string) : Completion Value :=
  match v with
  | Undefined =>
      Throw (JSError.TypeError
        ("Cannot read properties of undefined (reading '" +:+ k +:+ "')"))
  | Null =>
      Throw (JSError.TypeError
        ("Cannot read properties of null (reading '" +:+ k +:+ "')"))
  | Object props => Normal (lookup_prop k props)
  | _ => Normal Undefined
  end.

(** [s1.join(sep)] on strings. *)
Fixpoint join (sep : string) (l : list string) : string :=
  match l with
  | [] => ""
  | [s] => s
  | s :: rest => s +:+ sep +:+ join sep rest
  end.

(** [String(v)] *)
Fixpoint ToString (v : Value) : string :=
  match v with
  | Undefined => "undefined"
  | Null => "null"
  | Bool b => if b then "true" else "false"
  | Number n => number_to_string n
  | Str s => s
  | Array items =>
      join "," (List.map (λ x,
        match x with
        | Undefined | Null => ""
        | _ => ToString x
        end) items)
  | Object _ => "[object Object]"
  end.

(** *** [JSON.stringify(v, null, 2)] *)

Definition dquote : string := String "034"%char EmptyString.
Definition backslash : string := String "092"%char EmptyString.

Definition hex_digit (n : N) : string :=
  String (match n with
          | 0 => "0" | 1 => "1" | 2 => "2" | 3 => "3" | 4 => "4" | 5 => "5"
          | 6 => "6" | 7 => "7" | 8 => "8" | 9 => "9" | 10 => "a" | 11 => "b"
          | 12 => "c" | 13 => "d" | 14 => "e" | _ => "f"
          end%N%char) EmptyString.

(** One code unit of a quoted JSON string. *)
Definition quote_char (a : ascii) : string :=
  match N_of_ascii a with
  | 8 => backslash +:+ "b"
  | 9 => backslash +:+ "t"
  | 10 => backslash +:+ "n"
  | 12 => backslash +:+ "f"
  | 13 => backslash +:+ "r"
  | 34 => backslash +:+ dquote
  | 92 => backslash +:+ backslash
  | n => if (n <? 32)%N
         then backslash +:+ "u00" +:+ hex_digit (n / 16) +:+ hex_digit (n mod 16)
         else String a EmptyString
  end%N.

Fixpoint quote_chars (s : string) : string :=
  match s with
  | EmptyString => EmptyString
  | String a s' => quote_char a +:+ quote_chars s'
  end.

Definition quote (s : string) : string := dquote +:+ quote_chars s +:+ dquote.

Definition gap : string := "  ".

(** Serialization at nesting [indent]; [None] is JavaScript's
    [undefined], which a property holding it is left out for and an
    array item holding it prints [null] for. *)
Fixpoint serialize (indent : string) (v : Value) : option string :=
  match v with
  | Undefined => None
  | Null => Some "null"
  | Bool b => Some (if b then "true" else "false")
  | Number n => Some (if number_is_finite n then number_to_string n else "null")
  | Str s => Some (quote s)
  | Array items =>
      let stepback := indent in
      let indent := indent +:+ gap in
      match items with
      | [] => Some "[]"
      | _ =>
          let partial := List.map (λ x,
            match serialize indent x with
            | Some s => s
            | None => "null"
            end) items in
          Some ("[" +:+ JSString.nl +:+ indent
                +:+ join ("," +:+ JSString.nl +:+ indent) partial
                +:+ JSString.nl +:+ stepback +:+ "]")
      end
  | Object props =>
      let stepback := indent in
      let indent := indent +:+ gap in
      let partial := List.concat (List.map (λ p,
        match serialize indent p.2 with
        | Some s => [quote p.1 +:+ ": " +:+ s]
        | None => []
        end) props) in
      match partial with
      | [] => Some "{}"
      | _ =>
          Some ("{" +:+ JSString.nl +:+ indent
                +:+ join ("," +:+ JSString.nl +:+ indent) partial
                +:+ JSString.nl +:+ stepback +:+ "}")
      end
  end.

(** The value of the expression [JSON.stringify(v, null, 2)]. *)
Definition JSON_stringify (v : Value) : Value :=
  match serialize "" v with
  | Some s => Str s
  | None => Undefined
  end.
End Values.
Arguments Value : clear implicits.
End JS.

(** ** The connection registry and the merged namespace (lines 94-102, 439-491) *)
Module Registry.
Section Registry.
Context {number : Type} `{JSNumber number}.

(** A tool or prompt descriptor: its [name] and the rest of it. *)
Record Named := { name : string; descriptor : JS.Value number }.

(** A resource descriptor: its [uri] and the rest of it. *)
Record Resource := { uri : string; resource_descriptor : JS.Value number }.

(** [HamaClientConnection]; the client and its transport are reached
    through [serverName]. *)
Record HamaClientConnection := {
  serverName : string;
  active : bool;
  tools : list Named;
  prompts : list Named;
  resources : list Resource
}.

(** The private field [hamaConnections]. *)
Definition Connections := JSMap.t HamaClientConnection.

(** An entry of the merged listing: the descriptor with the two fields
    the listing stamps on it. *)
Record Unified (D : Type) := {
  entry : D;
  entry_serverName : string;
  qualified : string   (* [fullName] / [fullUri] *)
}.
Arguments entry {D}.
Arguments entry_serverName {D}.
Arguments qualified {D}.

(** [`${serverName}:${local}`] *)
Definition qualify (server local : string) : string :=
  server +:+ ":" +:+ local.

(** The loop shared by the three listings. *)
Definition unify {D} (caps : HamaClientConnection → list D) (local : D → string)
    (conns : Connections) : list (Unified D) :=
  List.concat (List.map (λ p : string * HamaClientConnection,
    if active p.2 then
      List.map (λ d, {| entry := d; entry_serverName := p.1;
                        qualified := qualify p.1 (local d) |}) (caps p.2)
    else []) (JSMap.entries conns)).

Definition getUnifiedTools : Connections → list (Unified Named) := unify tools name.
Definition getUnifiedPrompts : Connections → list (Unified Named) := unify prompts name.
Definition getUnifiedResources : Connections → list (Unified Resource) := unify resources uri.

(** *** Resolution (lines 499-521, 703-723, 735-755) *)

(** [conn.tools.some(tool => tool.name === toolName)] *)
Definition some_named (local : string) (l : list Named) : bool :=
  existsb (λ d, String.eqb (name d) local) l.

Definition some_uri (local : string) (l : list Resource) : bool :=
  existsb (λ d, String.eqb (uri d) local) l.

(** [Array.from(this.hamaConnections.values()).find(...)] *)
Definition find_connection (defines : HamaClientConnection → bool)
    (conns : Connections) : option HamaClientConnection :=
  List.find (λ conn, active conn && defines conn) (JSMap.values conns).

(** [[targetServer, actualName] = qualifiedName.split(':', 2)]; a piece
    the array lacks is [undefined], which cannot happen after
    [includes(':')]. *)
Definition destructure2 (qualifiedName : string) : string * string :=
  match JSString.split_limit ":"%char 2 qualifiedName with
  | a :: b :: _ => (a, b)
  | [a] => (a, "undefined")
  | [] => ("undefined", "undefined")
  end.

(** The part of [callTool], [getPrompt] and [readResource] before the
    backend is called: the connection the call goes to and the name it
    is made with.  [notFound] is the message prefix of the category. *)
Definition resolve (defines : string → HamaClientConnection → bool)
    (notFound : string) (conns : Connections) (given : string)
    : Completion (HamaClientConnection * string) :=
  '(targetServer, actualName) ←
    (if JSString.includes ":"%char given then Normal (destructure2 given)
     else match find_connection (defines given) conns with
          | None => Throw (JSError.Error (notFound +:+ given))
          | Some connection => Normal (serverName connection, given)
          end);
  match JSMap.get targetServer conns with
  | Some connection =>
      if active connection then Normal (connection, actualName)
      else Throw (JSError.Error ("서버에 연결할 수 없습니다: " +:+ targetServer))
  | None => Throw (JSError.Error ("서버에 연결할 수 없습니다: " +:+ targetServer))
  end.

Definition resolveTool : Connections → string → _ :=
  resolve (λ n conn, some_named n (tools conn)) "도구를 찾을 수 없습니다: ".
Definition resolvePrompt : Connections → string → _ :=
  resolve (λ n conn, some_named n (prompts conn)) "프롬프트를 찾을 수 없습니다: ".
Definition resolveResource : Connections → string → _ :=
  resolve (λ n conn, some_uri n (resources conn)) "리소스를 찾을 수 없습니다: ".

(** [getPrompt] and [readResource]: the backend's answer is returned as
    it comes. *)
Definition getPrompt
    (client_getPrompt : string → string → JS.Value number → Completion (JS.Value number))
    (conns : Connections) (promptName : string) (params : JS.Value number)
    : Completion (JS.Value number) :=
  '(connection, actualPromptName) ← resolvePrompt conns promptName;
  client_getPrompt (serverName connection) actualPromptName params.

Definition readResource
    (client_readResource : string → string → Completion (JS.Value number))
    (conns : Connections) (resourceUri : string) : Completion (JS.Value number) :=
  '(connection, actualUri) ← resolveResource conns resourceUri;
  client_readResource (serverName connection) actualUri.

(** The text of a name before its first separator. *)
Definition first_piece (local : string) : string :=
  match JSString.split ":" local with
  | p :: _ => p
  | [] => ""
  end.

(** Every connection is stored under its own [serverName] (line 329). *)
Definition keyed_by_name (conns : Connections) : Prop :=
  NoDup (JSMap.keys conns) ∧ ∀ k c, (k, c) ∈ conns → serverName c = k.
End Registry.
Arguments Named : clear implicits.
Arguments Resource : clear implicits.
Arguments HamaClientConnection : clear implicits.
Arguments Connections : clear implicits.
Arguments entry {D}.
Arguments entry_serverName {D}.
Arguments qualified {D}.
End Registry.

(** ** Reply normalization (lines 555-629) *)
Module Normalize.
Import JS.
Section Normalize.
Context {number : Type} `{JSNumber number}.

(** [{ content: [{ type: "text", text }] }] *)
Definition text_result (text : Value number) : Value number :=
  Object [("content", Array [Object [("type", Str "text"); ("text", text)]])].

Definition textFields : list string :=
  ["text"; "content"; "message"; "result"; "output"; "transcript";
   "description"; "summary"; "response"; "value"; "body"; "data"].

(** The [for (const field of textFields)] loop with its [break]; it
    yields [textContent] and [usedField], both initially empty. *)
Fixpoint scan_fields (result : Value number) (fields : list string)
    : Completion (Value number * string) :=
  match fields with
  | [] => Normal (Str "", "")
  | field :: rest =>
      v ← get result field;
      match v with
      | Undefined | Null => scan_fields result rest
      | _ =>
          match typeof v with
          | TString => Normal (v, field)
          | TObject => Normal (JSON_stringify v, field)
          | _ => scan_fields result rest
          end
      end
  end.

(** [result.content && Array.isArray(result.content) &&
    result.content.length > 0] *)
Definition is_envelope (content : Value number) : bool :=
  truthy content && isArray content &&
  match content with Array items => bool_decide (0 < length items) | _ => false end.

(** The body of the [try] block. *)
Definition normalize_body (result : Value number) : Completion (Value number) :=
  if negb (truthy result) then
    Normal (text_result (Str "도구 실행 완료 (응답 없음)"))
  else
    content ← get result "content";
    if is_envelope content then Normal result
    else
      match typeof result with
      | TString => Normal (text_result result)
      | TObject =>
          '(textContent, usedField) ← scan_fields result textFields;
          let '(textContent, usedField) :=
            if negb (truthy textContent)
            then (JSON_stringify result, "full_object")
            else (textContent, usedField) in
          Normal (text_result textContent)
      | _ => Normal (text_result (Str (ToString result)))
      end.

(** The whole block with its [catch]. *)
Definition normalize (result : Value number) : Completion (Value number) :=
  try_catch (normalize_body result)
    (λ error, Normal (text_result (Str ("도구 실행 오류: " +:+ JSError.message error)))).

(** The listed field holds a string or a structured value; every other
    field (absent, [null], number, boolean) is passed over by the
    scan. *)
Definition usable (v : Value number) : bool :=
  match v with
  | Str _ | Array _ | Object _ => true
  | _ => false
  end.

(** The reply already has the shape of the envelope. *)
Definition is_canonical (v : Value number) : bool :=
  match v with
  | Object props => is_envelope (lookup_prop "content" props)
  | _ => false
  end.
End Normalize.
End Normalize.

(** ** Schema-bypass recovery (lines 636-697)

    [callToolDirectly] runs its promise executor at once and then lives on
    in two callbacks: the interceptor it stored in [transport.onmessage] and
    the timer.  The transport is a state; an incoming message and the firing
    of a timer are the events that change it. *)
Module Bypass.
Section Bypass.
Context {number : Type} `{JSNumber number}.

(** An incoming JSON-RPC message: its [id] when it is a number, its
    [error] (with the error's [message], when it has one) and its
    [result]. *)
Record Message := {
  id : option Z;
  error : option (option string);
  result : JS.Value number
}.

(** The request the recovery sends. *)
Record Request := {
  request_id : Z;
  request_name : string;
  request_arguments : JS.Value number
}.

(** What [transport.onmessage] can hold: nothing, the handler the
    protocol client installed when it connected, or the closure built at
    line 664 by the [call]-th recovery, which remembers its request id
    and the handler it replaced. *)
Inductive Handler :=
| NoHandler
| ClientHandler
| Interceptor (call : nat) (requestId : Z) (originalOnMessage : Handler).

Inductive Promise :=
| Pending
| Resolved (v : JS.Value number)
| Rejected (e : JSError.t).

(** One recovery: whether its timer is still armed, and its promise. *)
Record Recovery := { timeout : bool; promise : Promise }.

(** The transport and what happened on it: the messages written to the
    backend, and the messages that reached the client's own handler. *)
Record Transport := {
  onmessage : Handler;
  sent : list Request;
  delivered : list Message;
  recoveries : list Recovery
}.

(** [transport.send]: missing, or called and then returning or
    throwing. *)
Inductive Send := SendMissing | SendReturns | SendThrows (e : JSError.t).

Definition set_onmessage (h : Handler) (t : Transport) : Transport :=
  {| onmessage := h; sent := sent t; delivered := delivered t;
     recoveries := recoveries t |}.

Definition alter_recovery (call : nat) (f : Recovery → Recovery) (t : Transport)
    : Transport :=
  {| onmessage := onmessage t; sent := sent t; delivered := delivered t;
     recoveries := alter f call (recoveries t) |}.

(** The timer of a recovery is no longer armed: after
    [clearTimeout(timeout)], and after it has fired. *)
Definition disarm (call : nat) : Transport → Transport :=
  alter_recovery call (λ r, {| timeout := false; promise := promise r |}).

Definition clearTimeout : nat → Transport → Transport := disarm.

(** [resolve] and [reject] settle a promise that is still pending and do
    nothing to a settled one. *)
Definition settle (call : nat) (p : Promise) : Transport → Transport :=
  alter_recovery call (λ r,
    {| timeout := timeout r;
       promise := match promise r with Pending => p | settled => settled end |}).

(** [x || fallback] on an optional string *)
Definition or_else (x : option string) (fallback : string) : string :=
  match x with
  | Some s => if JSString.is_empty s then fallback else s
  | None => fallback
  end.

(** Calling a handler with a message. *)
Fixpoint handle (h : Handler) (response : Message) (t : Transport) : Transport :=
  match h with
  | NoHandler => t
  | ClientHandler =>
      {| onmessage := onmessage t; sent := sent t;
         delivered := delivered t ++ [response]; recoveries := recoveries t |}
  | Interceptor call requestId originalOnMessage =>
      if bool_decide (id response = Some requestId) then
        let t := clearTimeout call t in
        let t := set_onmessage originalOnMessage t in
        match error response with
        | Some msg => settle call (Rejected (JSError.Error (or_else msg "도구 호출 오류"))) t
        | None => settle call (Resolved (result response)) t
        end
      else
        match originalOnMessage with
        | NoHandler => t
        | _ => handle originalOnMessage response t
        end
  end.

Inductive Event :=
| Arrives (m : Message)      (* the transport calls [onmessage] *)
| TimerFires (call : nat).   (* 30000 ms have passed for that recovery *)

Definition step (t : Transport) (ev : Event) : Transport :=
  match ev with
  | Arrives m => handle (onmessage t) m t
  | TimerFires call =>
      match recoveries t !! call with
      | Some r =>
          if timeout r then
            settle call (Rejected (JSError.Error "직접 호출 타임아웃")) (disarm call t)
          else t
      | None => t
      end
  end.

Definition run (evs : list Event) (t : Transport) : Transport :=
  foldl step t evs.

(** The synchronous part of [callToolDirectly] on a transport that
    exists: the state it leaves and the number of the recovery whose
    promise it returns.  [now] is [Date.now()]. *)
Definition callToolDirectly (now : Z) (send : Send) (toolName : string)
    (params : JS.Value number) (t : Transport) : Transport * nat :=
  let call := length (recoveries t) in
  let request := {| request_id := now; request_name := toolName;
                    request_arguments := params |} in
  let originalOnMessage := onmessage t in
  let t := {| onmessage := Interceptor call now originalOnMessage;
              sent := sent t; delivered := delivered t;
              recoveries := recoveries t ++ [{| timeout := true; promise := Pending |}] |} in
  match send with
  | SendReturns =>
      ({| onmessage := onmessage t; sent := sent t ++ [request];
          delivered := delivered t; recoveries := recoveries t |}, call)
  | SendMissing =>
      (settle call (Rejected (JSError.Error "전송 메서드를 사용할 수 없습니다")) t, call)
  | SendThrows sendError =>
      (settle call (Rejected sendError)
         (set_onmessage originalOnMessage (clearTimeout call t)), call)
  end.

Definition promise_of (call : nat) (t : Transport) : Promise :=
  match recoveries t !! call with
  | Some r => promise r
  | None => Pending
  end.
End Bypass.
Arguments Message : clear implicits.
Arguments Request : clear implicits.
Arguments Promise : clear implicits.
Arguments Recovery : clear implicits.
Arguments Transport : clear implicits.
Arguments Event : clear implicits.
End Bypass.

(** ** callTool (lines 496-630) *)
Module CallTool.
Import JS Registry Normalize.
Section CallTool.
Context {number : Type} `{JSNumber number}.

(** What an [await] has to show when the events considered are over:
    the awaited completion, or a promise still pending. *)
Inductive Awaited (A : Type) :=
| Done (c : Completion A)
| StillPending.
Arguments Done {A} c.
Arguments StillPending {A}.

(** The world around one call: what the validating client answers for a
    server, tool name and arguments; the transport under that server's
    client, if it has one; the clock; how [transport.send] behaves; and
    what happens on the transport while the recovery is awaited. *)
Record Backend := {
  client_callTool : string → string → Value number → Completion (Value number);
  client_transport : string → option (Bypass.Transport number);
  Date_now : Z;
  transport_send : Bypass.Send;
  arrivals : list (Bypass.Event number)
}.

(** [await this.callToolDirectly(connection, toolName, params)] *)
Definition await_callToolDirectly (world : Backend)
    (connection : HamaClientConnection number) (toolName : string)
    (params : Value number) : Awaited (Value number) :=
  match client_transport world (serverName connection) with
  | None => Done (Throw (JSError.Error "전송 계층에 접근할 수 없습니다"))
  | Some transport =>
      let '(t, call) :=
        Bypass.callToolDirectly (Date_now world) (transport_send world)
          toolName params transport in
      match Bypass.promise_of call (Bypass.run (arrivals world) t) with
      | Bypass.Pending => StillPending
      | Bypass.Resolved v => Done (Normal v)
      | Bypass.Rejected e => Done (Throw e)
      end
  end.

(** Lines 522-552: the call, and the recovery when the client's schema
    check rejected the reply.  [inl] is the [return] at line 542, [inr]
    the value left in [result]. *)
Definition invoke (world : Backend) (connection : HamaClientConnection number)
    (actualToolName : string) (params : Value number)
    : Awaited (Value number + Value number) :=
  match client_callTool world (serverName connection) actualToolName params with
  | Normal result => Done (Normal (inr result))
  | Throw error =>
      if String.eqb (JSError.name error) "ZodError" && JSError.issues error then
        match await_callToolDirectly world connection actualToolName params with
        | StillPending => StillPending
        | Done (Normal rawResult) => Done (Normal (inr rawResult))
        | Done (Throw directError) =>
            Done (Normal (inl (text_result (Str (
              "도구 실행 오류: MCP 응답 형식 문제 (" +:+ actualToolName +:+ ")"
              +:+ JSString.nl +:+ "오류 세부사항: " +:+ JSError.message error)))))
        end
      else Done (Throw error)
  end.

(** The call on the resolved connection, and lines 555-629 on what it
    left in [result]. *)
Definition dispatch (world : Backend) (connection : HamaClientConnection number)
    (actualToolName : string) (params : Value number) : Awaited (Value number) :=
  match invoke world connection actualToolName params with
  | StillPending => StillPending
  | Done (Throw e) => Done (Throw e)
  | Done (Normal (inl early)) => Done (Normal early)
  | Done (Normal (inr result)) => Done (normalize result)
  end.

Definition callTool (world : Backend) (conns : Connections number)
    (toolName : string) (params : Value number) : Awaited (Value number) :=
  match resolveTool conns toolName with
  | Throw e => Done (Throw e)
  | Normal (connection, actualToolName) =>
      dispatch world connection actualToolName params
  end.
End CallTool.
Arguments Done {A} c.
Arguments StillPending {A}.
Arguments Backend : clear implicits.
End CallTool.

(** ** Connecting the backends (lines 243-330) *)
Module Connect.
Import Registry.
Section Connect.
Context {number : Type} `{JSNumber number}.

Record ServerConfig := {
  command : string;
  args : list string;
  env : option (list (string * string))
}.

(** [HamaServerConfig]: the entries of [hamaServers], as
    [Object.entries] lists them. *)
Record HamaServerConfig := { hamaServers : list (string * ServerConfig) }.

(** What a backend does when it is launched: whether [connect]
    succeeds, and what each of the three listings answers. *)
Record Launch := {
  connect : Completion unit;
  listTools : Completion (list (Named number));
  listPrompts : Completion (list (Named number));
  listResources : Completion (list (Resource number))
}.

(** [.catch(() => ({ tools: [] }))] *)
Definition or_empty {A} (listing : Completion (list A)) : list A :=
  match listing with
  | Normal l => l
  | Throw _ => []
  end.

(** [connectToServer] *)
Definition connectToServer (launch : string → ServerConfig → Launch)
    (name : string) (serverConfig : ServerConfig) (conns : Connections number)
    : Completion (Connections number) :=
  let backend := launch name serverConfig in
  _ ← connect backend;
  let hamaConnection :=
    {| serverName := name; active := true;
       tools := or_empty (listTools backend);
       prompts := or_empty (listPrompts backend);
       resources := or_empty (listResources backend) |} in
  Normal (JSMap.set name hamaConnection conns).

(** The callback mapped over the entries: the attempt with its
    [try]/[catch]. *)
Definition attempt (launch : string → ServerConfig → Launch)
    (conns : Connections number) (entry : string * ServerConfig)
    : Connections number :=
  match try_catch (connectToServer launch entry.1 entry.2 conns)
                  (λ error, Normal conns) with
  | Normal conns' => conns'
  | Throw _ => conns
  end.

(** [connectAllServers].  The attempts run interleaved and each touches
    the registry once, at its last line; [finished] lists the entries in
    the order in which the attempts get there. *)
Definition connectAllServers (launch : string → ServerConfig → Launch)
    (config : option HamaServerConfig) (finished : list (string * ServerConfig))
    (conns : Connections number) : Completion (Connections number) :=
  match config with
  | None => Throw (JSError.Error "구성이 로드되지 않았습니다")
  | Some _ => Normal (foldl (attempt launch) conns finished)
  end.

(** The connection that a successful attempt registers. *)
Definition registered (launch : string → ServerConfig → Launch)
    (name : string) (serverConfig : ServerConfig)
    : HamaClientConnection number :=
  {| serverName := name; active := true;
     tools := or_empty (listTools (launch name serverConfig));
     prompts := or_empty (listPrompts (launch name serverConfig));
     resources := or_empty (listResources (launch name serverConfig)) |}.
End Connect.
Arguments Launch : clear implicits.
End Connect.

(** ** Front-end sessions (lines 779-889) *)
Module Sessions.

(** A front-end endpoint (a [Server] instance) and a transport, by
    number. *)
Definition Server := nat.
Definition TransportRef := nat.

(** The two registries, and what the handlers did to the outside: the
    endpoints [close()] was called on, in order, and the errors written to
    the console. *)
Record State := {
  activeSSETransports : gmap string TransportRef;
  activeStreamTransports : gmap string (Server * TransportRef);
  closed : list Server;
  console : list JSError.t
}.

(** [try { await server.close(); } catch (error) { console.error(...) }];
    [outcome] is what this call of [close] does. *)
Definition close_server (server : Server) (outcome : Completion ()) (st : State)
    : Completion State :=
  let st := {| activeSSETransports := activeSSETransports st;
               activeStreamTransports := activeStreamTransports st;
               closed := closed st ++ [server]; console := console st |} in
  try_catch (_ ← outcome; Normal st)
    (λ error, Normal {| activeSSETransports := activeSSETransports st;
                        activeStreamTransports := activeStreamTransports st;
                        closed := closed st; console := console st ++ [error] |}).

(** Line 797. *)
Definition sse_register (sessionId : string) (transport : TransportRef) (st : State)
    : State :=
  {| activeSSETransports := <[sessionId := transport]> (activeSSETransports st);
     activeStreamTransports := activeStreamTransports st;
     closed := closed st; console := console st |}.

(** The [res.on("close", ...)] handler of the SSE middleware (lines
    800-808), for the session of [sessionId] and its endpoint. *)
Definition sse_on_close (sessionId : string) (server : Server)
    (outcome : Completion ()) (st : State) : Completion State :=
  st ← close_server server outcome st;
  Normal {| activeSSETransports := delete sessionId (activeSSETransports st);
            activeStreamTransports := activeStreamTransports st;
            closed := closed st; console := console st |}.

(** [onsessioninitialized] (line 874). *)
Definition stream_register (sessionId : string) (server : Server)
    (transport : TransportRef) (st : State) : State :=
  {| activeSSETransports := activeSSETransports st;
     activeStreamTransports := <[sessionId := (server, transport)]> (activeStreamTransports st);
     closed := closed st; console := console st |}.

(** [transport.onclose] of the stream middleware (lines 879-889), run to
    its end before anything else touches the registry; [sid] is
    [transport.sessionId], undefined before initialization. *)
Definition stream_onclose (sid : option string) (server : Server)
    (outcome : Completion ()) (st : State) : Completion State :=
  match sid with
  | Some sid =>
      if negb (JSString.is_empty sid)
         && bool_decide (is_Some (activeStreamTransports st !! sid)) then
        st ← close_server server outcome st;
        Normal {| activeSSETransports := activeSSETransports st;
                  activeStreamTransports := delete sid (activeStreamTransports st);
                  closed := closed st; console := console st |}
      else Normal st
  | None => Normal st
  end.
End Sessions.

(** ** Refreshing one connection (lines 335-352) *)
Module Refresh.
Import Registry Connect.
Section Refresh.
Context {number : Type} `{JSNumber number}.

(** What the three listings answer when the connection is asked again. *)
Record Listings := {
  tools_listed : Completion (list (Named number));
  prompts_listed : Completion (list (Named number));
  resources_listed : Completion (list (Resource number))
}.

(** [refreshServerData]: the connection object is changed where it is, so
    its binding keeps its place in the map. *)
Definition refreshServerData (listings : Listings) (name : string)
    (conns : Connections number) : Connections number :=
  match JSMap.get name conns with
  | None => conns
  | Some connection =>
      JSMap.set name
        {| serverName := serverName connection; active := active connection;
           tools := or_empty (tools_listed listings);
           prompts := or_empty (prompts_listed listings);
           resources := or_empty (resources_listed listings) |} conns
  end.
End Refresh.
Arguments Listings : clear implicits.
End Refresh.

(** ** Status (lines 763-774) *)
Module Status.
Import Registry Connect.
Section Status.
Context {number : Type} `{JSNumber number}.

Record ConnectionStatus := {
  totalServers : nat;
  activeConnections : nat;
  connectedServers : list string;
  totalTools : nat;
  totalPrompts : nat;
  totalResources : nat;
  activeSSESessions : nat;
  activeStreamSessions : nat
}.

(** [getConnectionStatus] *)
Definition getConnectionStatus (config : option HamaServerConfig)
    (conns : Connections number) (sessions : Sessions.State) : ConnectionStatus :=
  {| totalServers :=
       match config with
       | Some c => length (hamaServers c)
       | None => 0
       end;
     activeConnections := JSMap.size conns;
     connectedServers := JSMap.keys conns;
     totalTools := length (getUnifiedTools conns);
     totalPrompts := length (getUnifiedPrompts conns);
     totalResources := length (getUnifiedResources conns);
     activeSSESessions := size (Sessions.activeSSETransports sessions);
     activeStreamSessions := size (Sessions.activeStreamTransports sessions) |}.

(** The backend's [connect] returned. *)
Definition connects (launch : string → ServerConfig → Launch number)
    (entry : string * ServerConfig) : Prop :=
  ∃ u, connect (launch entry.1 entry.2) = Normal u.

#[global] Instance connects_dec launch entry : Decision (connects launch entry).
Proof.
  unfold connects. destruct (connect (launch entry.1 entry.2)) as [u|e].
  - left. by exists u.
  - right. by intros [u [=]].
Defined.
End Status.
End Status.

(** ** The two middlewares (lines 779-975)

    What a middleware does with one request, given what the transport's own
    request handling does when it is called. *)
Module Middleware.
Import Registry.
Section Middleware.
Context {number : Type} `{JSNumber number}.

(** The parts of a request that the middlewares read.  [initialize] tells
    whether the body is an initialize request and, if so, its
    [params.serverName]. *)
Record Request := {
  method : string;
  path : string;
  mcp_session_id : option string;      (* header *)
  query_sessionId : option string;
  query_server : option string;
  initialize : option (option string)
}.

Inductive Response :=
| EndWith (status : nat) (text : string)
| JsonError (status : nat) (code : Z) (message : string).

(** The endpoint built for a new session. *)
Inductive Endpoint := Unified | Single (backend : string).

Inductive Outcome :=
| Next                            (* [next()] *)
| Respond (r : Response)          (* the middleware answers itself *)
| Handled (sessionId : string)    (* the session's transport took the request *)
| Created (endpoint : Endpoint)   (* a new endpoint and transport took it *)
| Rejected (e : JSError.t).       (* the middleware's promise rejects *)

(** A header or query value that is there and not empty. *)
Definition given (v : option string) : option string :=
  match v with
  | Some s => if JSString.is_empty s then None else Some s
  | None => None
  end.

(** [createProxyServer] (lines 357-385), as far as its own check at lines
    358-361 can fail; what the protocol library does with the handlers
    registered after it is outside this function. *)
Definition createProxyServer (conns : Connections number) (name : string)
    : Completion Endpoint :=
  match JSMap.get name conns with
  | Some connection =>
      if active connection then Normal (Single name)
      else Throw (JSError.Error ("서버에 연결할 수 없습니다: " +:+ name))
  | None => Throw (JSError.Error ("서버에 연결할 수 없습니다: " +:+ name))
  end.

(** [serverName === "unified" ? createUnifiedProxyServer()
                              : createProxyServer(serverName)] *)
Definition createServer (conns : Connections number) (name : string)
    : Completion Endpoint :=
  if String.eqb name "unified" then Normal Unified else createProxyServer conns name.

(** [x || "unified"] *)
Definition or_unified (x : option string) : string :=
  match given x with
  | Some s => s
  | None => "unified"
  end.

(** The stream middleware (lines 850-975); [handleRequest] is what
    [transport.handleRequest] does when called. *)
Definition stream_middleware (req : Request) (sessions : Sessions.State)
    (conns : Connections number) (handleRequest : Completion ()) : Outcome :=
  if negb (String.eqb (path req) "/hama") then Next
  else if String.eqb (method req) "POST" then
    let internal error :=
      Respond (JsonError 500 (-32603) "Internal Server Error") in
    match given (mcp_session_id req),
          initialize req with
    | Some sessionId, init =>
        match Sessions.activeStreamTransports sessions !! sessionId with
        | Some _ =>
            match handleRequest with
            | Normal _ => Handled sessionId
            | Throw e => internal e
            end
        | None =>
            Respond (JsonError 400 (-32000) "Bad Request: No valid session ID provided")
        end
    | None, Some serverName =>
        match createServer conns (or_unified serverName) with
        | Throw _ => Respond (EndWith 500 "Error creating server")
        | Normal endpoint =>
            match handleRequest with
            | Normal _ => Created endpoint
            | Throw e => internal e
            end
        end
    | None, None =>
        Respond (JsonError 400 (-32000) "Bad Request: No valid session ID provided")
    end
  else if String.eqb (method req) "GET" then
    match given (mcp_session_id req) with
    | None => Respond (EndWith 400 "No sessionId")
    | Some sessionId =>
        match Sessions.activeStreamTransports sessions !! sessionId with
        | None => Respond (EndWith 400 "No active transport")
        | Some _ =>
            match handleRequest with
            | Normal _ => Handled sessionId
            | Throw e => Rejected e
            end
        end
    end
  else if String.eqb (method req) "DELETE" then
    match given (mcp_session_id req) with
    | None => Respond (EndWith 400 "Invalid or missing sessionId")
    | Some sessionId =>
        match Sessions.activeStreamTransports sessions !! sessionId with
        | None => Respond (EndWith 400 "No active transport")
        | Some _ =>
            match handleRequest with
            | Normal _ => Handled sessionId
            | Throw _ => Respond (EndWith 500 "Error handling delete request")
            end
        end
    end
  else Next.

(** [path.startsWith(prefix)] *)
Fixpoint startsWith (prefix s : string) : bool :=
  match prefix, s with
  | EmptyString, _ => true
  | String a p, String b s' => Ascii.eqb a b && startsWith p s'
  | String _ _, EmptyString => false
  end.

(** The message channel of the SSE middleware (lines 826-843), and what
    it passes on; the branch for [GET /sse] opens a session and is the
    [OpensSession] outcome of [sse_middleware]. *)
Inductive SSEOutcome :=
| OpensSession
| Other (o : Outcome).

Definition sse_middleware (req : Request) (sessions : Sessions.State)
    (handlePostMessage : Completion ()) : SSEOutcome :=
  if String.eqb (method req) "GET" && String.eqb (path req) "/sse" then OpensSession
  else if String.eqb (method req) "POST" && startsWith "/messages" (path req) then
    match given (query_sessionId req) with
    | None => Other (Respond (EndWith 400 "No sessionId"))
    | Some sessionId =>
        match Sessions.activeSSETransports sessions !! sessionId with
        | None => Other (Respond (EndWith 400 "No active transport"))
        | Some _ =>
            match handlePostMessage with
            | Normal _ => Other (Handled sessionId)
            | Throw e => Other (Rejected e)
            end
        end
    end
  else Other Next.
End Middleware.
End Middleware.

(** ** Sample inputs *)

(** Two events recorded on one stream within one millisecond, the second
    with the smaller random suffix; and two events on a stream whose id
    holds an underscore. *)
Module EventLogExamples.
Import InMemoryEventStore.

Definition same_ms : list (StoreCall string) :=
  [ {| call_stream := "s"; call_message := "first"; call_now := 1000; call_rnd := "bbbbbbbb" |};
    {| call_stream := "s"; call_message := "second"; call_now := 1000; call_rnd := "aaaaaaaa" |} ].

Definition underscored : list (StoreCall string) :=
  [ {| call_stream := "a_b"; call_message := "first"; call_now := 1; call_rnd := "x" |};
    {| call_stream := "a_b"; call_message := "second"; call_now := 2; call_rnd := "y" |} ].

Definition three_streams : list (StoreCall string) :=
  [ {| call_stream := "s1"; call_message := "a1"; call_now := 10; call_rnd := "k" |};
    {| call_stream := "s2"; call_message := "b1"; call_now := 11; call_rnd := "k" |};
    {| call_stream := "s3"; call_message := "c1"; call_now := 12; call_rnd := "k" |};
    {| call_stream := "s1"; call_message := "a2"; call_now := 13; call_rnd := "k" |};
    {| call_stream := "s2"; call_message := "b2"; call_now := 14; call_rnd := "k" |};
    {| call_stream := "s1"; call_message := "a3"; call_now := 15; call_rnd := "k" |} ].
End EventLogExamples.

(** Two backends that both list a tool [toolX]; a backend with a file
    resource. *)
Module RoutingExamples.
Import JS Registry CallTool.

Definition tool (n : string) : Named Z := {| name := n; descriptor := Object [] |}.

Definition serverA : HamaClientConnection Z :=
  {| serverName := "serverA"; active := true; tools := [tool "toolX"];
     prompts := []; resources := [] |}.

Definition serverB : HamaClientConnection Z :=
  {| serverName := "serverB"; active := true; tools := [tool "toolY"; tool "toolX"];
     prompts := []; resources := [] |}.

Definition both : Connections Z := [("serverB", serverB); ("serverA", serverA)].

Definition fs : HamaClientConnection Z :=
  {| serverName := "fs"; active := true; tools := [tool "ns:run"]; prompts := [];
     resources := [{| uri := "file:///a.txt"; resource_descriptor := Object [] |}] |}.

Definition only_fs : Connections Z := [("fs", fs)].

(** A backend that answers every call with its own name and the tool's. *)
Definition echo : Backend Z :=
  {| client_callTool server toolName _ := Normal (Str (server +:+ "/" +:+ toolName));
     client_transport _ := None;
     Date_now := 0;
     transport_send := Bypass.SendReturns;
     arrivals := [] |}.
End RoutingExamples.

(** A backend whose replies fail the client's schema check and which never
    answers the recovery's request. *)
Module RecoveryExamples.
Import JS Bypass CallTool.

Definition zod : JSError.t :=
  {| JSError.name := "ZodError"; JSError.message := "invalid content";
     JSError.issues := true |}.

Definition connected : Transport Z :=
  {| onmessage := ClientHandler; sent := []; delivered := []; recoveries := [] |}.

Definition silent : Backend Z :=
  {| client_callTool _ _ _ := Throw zod;
     client_transport _ := Some connected;
     Date_now := 1700000000000;
     transport_send := SendReturns;
     arrivals := [TimerFires 0] |}.

(** What the transport sees after the timeout: a reply to an ordinary
    call, then the late reply to the recovery's request. *)
Definition ordinary : Message Z :=
  {| id := Some 7%Z; error := None; result := Str "pong" |}.

Definition late : Message Z :=
  {| id := Some 1700000000000%Z; error := None; result := Str "late" |}.
End RecoveryExamples.

(** Two configured backends; launching the second fails. *)
Module ConnectExamples.
Import JS Registry Connect.

Definition good : ServerConfig := {| command := "npx"; args := ["-y"; "good"]; env := None |}.
Definition bad : ServerConfig := {| command := "no-such-command"; args := []; env := None |}.

Definition two : HamaServerConfig := {| hamaServers := [("good", good); ("bad", bad)] |}.

Definition launch (name : string) (serverConfig : ServerConfig) : Launch Z :=
  if String.eqb (command serverConfig) "npx" then
    {| connect := Normal ();
       listTools := Normal [{| name := "run"; descriptor := Object [] |}];
       listPrompts := Throw (JSError.Error "Method not found");
       listResources := Normal [] |}
  else
    {| connect := Throw (JSError.Error "spawn no-such-command ENOENT");
       listTools := Normal []; listPrompts := Normal []; listResources := Normal [] |}.
End ConnectExamples.

(** One session of each flavor, both served by endpoint 5. *)
Module SessionsExamples.
Import Sessions.

Definition nothing : State :=
  {| activeSSETransports := ∅; activeStreamTransports := ∅; closed := []; console := [] |}.

Definition open : State :=
  stream_register "b2f0" 5 2 (sse_register "a1c9" 1 nothing).
End SessionsExamples.

(** A backend that is down, a backend whose reply the client rejects but
    which answers the recovery, two backends with prompts, and requests to
    the two middlewares. *)
Module MoreExamples.
Import JS Registry Bypass CallTool Middleware RoutingExamples RecoveryExamples.

Definition down : Backend Z :=
  {| client_callTool _ _ _ := Throw (JSError.Error "Connection closed");
     client_transport _ := Some connected;
     Date_now := 1700000000000;
     transport_send := SendReturns;
     arrivals := [] |}.

Definition recovered : Message Z :=
  {| id := Some 1700000000000%Z; error := None;
     result := Object [("message", Str "hello")] |}.

Definition answering : Backend Z :=
  {| client_callTool _ _ _ := Throw zod;
     client_transport _ := Some connected;
     Date_now := 1700000000000;
     transport_send := SendReturns;
     arrivals := [Arrives recovered] |}.

(** The transport while the recovery of [answering] is in flight. *)
Definition in_flight : Transport Z :=
  (callToolDirectly 1700000000000 SendReturns "toolX" (Object []) connected).1.

Definition notes : HamaClientConnection Z :=
  {| serverName := "notes"; active := false; tools := [];
     prompts := [tool "summarize"]; resources := [] |}.

Definition docs : HamaClientConnection Z :=
  {| serverName := "docs"; active := true; tools := [];
     prompts := [tool "summarize"];
     resources := [{| uri := "readme"; resource_descriptor := Object [] |}] |}.

Definition prompting : Connections Z := [("notes", notes); ("docs", docs)].

(** A client that answers with the server and the name it was asked
    for. *)
Definition naming (server local : string) (_ : Value Z) : Completion (Value Z) :=
  Normal (Str (server +:+ "/" +:+ local)).

Definition reading (server local : string) : Completion (Value Z) :=
  Normal (Str (server +:+ "/" +:+ local)).

Definition post_unknown_session : Request :=
  {| method := "POST"; path := "/hama"; mcp_session_id := Some "ffff";
     query_sessionId := None; query_server := None; initialize := Some None |}.

Definition get_known_session : Request :=
  {| method := "GET"; path := "/hama"; mcp_session_id := Some "b2f0";
     query_sessionId := None; query_server := None; initialize := None |}.

Definition message_unknown_session : Request :=
  {| method := "POST"; path := "/messages"; mcp_session_id := None;
     query_sessionId := Some "ffff"; query_server := None; initialize := None |}.
End MoreExamples.

(* ================================================================== *)
(** * Properties *)
(* ================================================================== *)

(** ** Strings *)
Module JSStringFacts.
Import JSString.

Lemma split_nonempty sep s : split sep s ≠ [].
Proof. destruct s as [|a s]; simpl; [done|]. destruct (Ascii.eqb a sep); [done|]. by destruct (split sep s). Qed.

(** A prefix without the separator is the first piece. *)
Lemma split_app_sep sep p rest :
  includes sep p = false →
  split sep (p +:+ String sep rest) = p :: split sep rest.
Proof.
  induction p as [|a p IH]; simpl; intros Hp.
  - by rewrite Ascii.eqb_refl.
  - destruct (Ascii.eqb a sep); [done|]. by rewrite IH.
Qed.

Lemma split_no_sep sep s : includes sep s = false → split sep s = [s].
Proof.
  induction s as [|a s IH]; simpl; intros Hs; [done|].
  destruct (Ascii.eqb a sep); [done|]. by rewrite IH.
Qed.

Lemma includes_app_sep sep p rest : includes sep (p +:+ String sep rest) = true.
Proof.
  induction p as [|a p IH]; simpl.
  - by rewrite Ascii.eqb_refl.
  - by destruct (Ascii.eqb a sep).
Qed.

Lemma is_empty_false s : s ≠ "" → is_empty s = false.
Proof. by destruct s. Qed.
End JSStringFacts.

(** ** Maps *)
Module JSMapFacts.
Import JSMap.
Section Facts.
Context {V : Type}.
Implicit Types (m : JSMap.t V) (k : string) (v : V).

Lemma get_Some_elem m k v : get k m = Some v → (k, v) ∈ m.
Proof.
  induction m as [|[k' v'] m IH]; simpl; [done|].
  destruct (String.eqb_spec k' k) as [->|Hne].
  - intros [= ->]. left.
  - intros Hg. right. auto.
Qed.

Lemma get_None_keys m k : get k m = None ↔ k ∉ keys m.
Proof.
  induction m as [|[k' v'] m IH]; simpl.
  - split; [intros _; apply not_elem_of_nil | done].
  - rewrite not_elem_of_cons. destruct (String.eqb_spec k' k) as [->|Hne].
    + split; [done | by intros [? _]].
    + rewrite IH. naive_solver.
Qed.

Lemma elem_get m k v : NoDup (keys m) → (k, v) ∈ m → get k m = Some v.
Proof.
  induction m as [|[k' v'] m IH]; simpl; intros Hnd Hin.
  - by apply elem_of_nil in Hin.
  - apply NoDup_cons in Hnd as [Hk' Hnd].
    apply elem_of_cons in Hin as [[= -> ->]|Hin].
    + by rewrite String.eqb_refl.
    + destruct (String.eqb_spec k' k) as [->|Hne]; [|by auto].
      destruct Hk'. unfold keys. apply (list_elem_of_fmap_2 fst _ _ Hin).
  Qed.

Lemma has_keys m k : has k m = true ↔ k ∈ keys m.
Proof.
  unfold has. destruct (get k m) as [v|] eqn:Hg.
  - split; [intros _|done]. apply get_Some_elem in Hg.
    apply (list_elem_of_fmap_2 fst _ _ Hg).
  - apply get_None_keys in Hg. naive_solver.
Qed.

Lemma keys_set m k v :
  keys (set k v m) = if has k m then keys m else keys m ++ [k].
Proof.
  unfold has. induction m as [|[k' v'] m IH]; simpl; [done|].
  destruct (String.eqb_spec k' k) as [->|Hne]; simpl; [done|].
  rewrite IH. by destruct (get k m).
Qed.

Lemma NoDup_keys_set m k v : NoDup (keys m) → NoDup (keys (set k v m)).
Proof.
  intros Hnd. rewrite keys_set. destruct (has k m) eqn:Hh; [done|].
  apply NoDup_app. split; [done|]. split; [|apply NoDup_singleton].
  intros x Hx Hx'. apply list_elem_of_singleton in Hx' as ->.
  apply has_keys in Hx. congruence.
Qed.

Lemma elem_of_set m k v k' v' :
  (k', v') ∈ set k v m → (k', v') = (k, v) ∨ (k', v') ∈ m.
Proof.
  induction m as [|[k0 v0] m IH]; simpl.
  - intros ?%list_elem_of_singleton. by left.
  - destruct (String.eqb k0 k); rewrite !elem_of_cons; naive_solver.
Qed.

Lemma get_set_eq m k v : get k (set k v m) = Some v.
Proof.
  induction m as [|[k' v'] m IH]; simpl.
  - by rewrite String.eqb_refl.
  - destruct (String.eqb_spec k' k) as [->|Hne]; simpl.
    + by rewrite String.eqb_refl.
    + by destruct (String.eqb_spec k' k).
Qed.

Lemma get_set_ne m k k' v : k ≠ k' → get k' (set k v m) = get k' m.
Proof.
  intros Hne. induction m as [|[k0 v0] m IH]; simpl.
  - by destruct (String.eqb_spec k k').
  - destruct (String.eqb_spec k0 k) as [->|Hne0]; simpl.
    + destruct (String.eqb_spec k k'); [done|]. done.
    + by rewrite IH.
Qed.
End Facts.
End JSMapFacts.

(** ** The event store *)
Module InMemoryEventStoreFacts.
Import JSString JSStringFacts JSMapFacts InMemoryEventStore.

Section Facts.
Context {JSONRPCMessage : Type}.
Context `{Collation}.
Implicit Types (events : Events JSONRPCMessage).
Implicit Types (calls : list (StoreCall JSONRPCMessage)).

(** An id names its stream as long as the stream id has no underscore. *)
Lemma stream_of_generated_id stream now rnd :
  includes "_" stream = false →
  getStreamIdFromEventId (generateEventId stream now rnd) = stream.
Proof.
  intros Hs. unfold getStreamIdFromEventId, generateEventId.
  change (stream +:+ "_" +:+ ?r) with (stream +:+ String "_" r).
  by rewrite split_app_sep.
Qed.

Lemma generated_storeEvent stream msg now rnd events :
  generated events → generated (storeEvent stream msg now rnd events).1.
Proof.
  intros [Hnd Hg]. split; simpl.
  - by apply NoDup_keys_set.
  - intros k e [[= -> ->]|Hin]%elem_of_set; [by eexists _, _|by eauto].
Qed.

Lemma generated_storeAll calls events :
  generated events → generated (storeAll calls events).
Proof.
  revert events. induction calls as [|c calls IH]; intros events Hg; [done|].
  simpl. apply IH. by apply generated_storeEvent.
Qed.

Lemma generated_empty : generated (JSMap.empty (V:=Entry JSONRPCMessage)).
Proof. split; [constructor|]. by intros k e ?%elem_of_nil. Qed.

(** The keys of a store are the ids its [storeEvent] calls returned. *)
Lemma keys_storeAll calls events k :
  k ∈ JSMap.keys (storeAll calls events) →
  k ∈ JSMap.keys events ∨ k ∈ call_id <$> calls.
Proof.
  revert events. induction calls as [|c calls IH]; intros events; simpl; [by left|].
  intros [Hk|Hk]%IH.
  - unfold storeEvent in Hk. simpl in Hk. rewrite keys_set in Hk.
    destruct (JSMap.has _ events); [by left|].
    apply elem_of_app in Hk as [?|Hk%list_elem_of_singleton]; [by left|].
    subst k. right. left.
  - right. by right.
Qed.
Section Ordered.
Context `{!CollationOrder}.

Lemma collate_refl a : localeCompare a a = Eq.
Proof. pose proof (collate_antisym a a) as Ha. by destruct (localeCompare a a). Qed.

Lemma collate_flip a b : localeCompare a b = Lt → localeCompare b a = Gt.
Proof. intros Hab. rewrite collate_antisym, Hab. done. Qed.

#[local] Instance id_le_total : Total (id_le (JSONRPCMessage:=JSONRPCMessage)).
Proof.
  intros a b. unfold id_le. rewrite (collate_antisym b.1 a.1).
  destruct (localeCompare a.1 b.1); naive_solver.
Qed.

#[local] Instance id_le_trans : Transitive (id_le (JSONRPCMessage:=JSONRPCMessage)).
Proof.
  intros a b c. unfold id_le. apply collate_trans.
Qed.

Lemma insert_sorted_perm x (l : list (string * Entry JSONRPCMessage)) :
  insert_sorted x l ≡ₚ x :: l.
Proof.
  induction l as [|y l IH]; [done|]. cbn [insert_sorted].
  destruct (decide (id_le x y)); [done|]. by rewrite IH, Permutation_swap.
Qed.

Lemma sortedEvents_perm events : sortedEvents events ≡ₚ events.
Proof.
  unfold sortedEvents, JSMap.entries, sort.
  induction events as [|x l IH]; [done|].
  cbn [foldr]. by rewrite insert_sorted_perm, IH.
Qed.

Lemma insert_sorted_sorted x (l : list (string * Entry JSONRPCMessage)) :
  StronglySorted id_le l → StronglySorted id_le (insert_sorted x l).
Proof.
  induction 1 as [|y l Hs IH Hall]; [repeat constructor|].
  cbn [insert_sorted]. destruct (decide (id_le x y)) as [Hxy|Hxy].
  - constructor; [by constructor|]. constructor; [done|].
    eapply Forall_impl; [exact Hall|]. intros z Hyz. by etrans.
  - constructor; [done|]. rewrite insert_sorted_perm. constructor; [|done].
    by destruct (total id_le x y).
Qed.

Lemma sortedEvents_sorted events : StronglySorted id_le (sortedEvents events).
Proof.
  unfold sortedEvents, JSMap.entries, sort.
  induction events as [|x l IH]; [constructor|].
  cbn [foldr]. by apply insert_sorted_sorted.
Qed.

(** With pairwise different keys that the collation tells apart, the
    sorted array ascends strictly. *)
Lemma strictly_sorted (l : list (string * Entry JSONRPCMessage)) :
  NoDup l.*1 → separates l.*1 → StronglySorted id_le l → StronglySorted id_lt l.
Proof.
  intros Hnd0 Hsep0. induction 1 as [|a l Hs IH Hall]; [constructor|].
  rewrite fmap_cons in Hnd0, Hsep0. apply NoDup_cons in Hnd0 as [Ha Hnd].
  constructor.
  { apply IH; [done|]. intros x y Hx Hy. apply Hsep0; by right. }
  apply Forall_forall. intros b Hb.
  rewrite Forall_forall in Hall. specialize (Hall b Hb).
  unfold id_le, id_lt in *.
  destruct (localeCompare a.1 b.1) eqn:E1; [|done|done].
  apply Hsep0 in E1; [|by left|right; by apply list_elem_of_fmap_2].
  destruct Ha. rewrite E1. by apply list_elem_of_fmap_2.
Qed.

Lemma sortedEvents_strict events :
  NoDup (JSMap.keys events) → separates (JSMap.keys events) →
  StronglySorted id_lt (sortedEvents events).
Proof.
  intros Hnd Hsep. unfold JSMap.keys in Hnd, Hsep. apply strictly_sorted.
  - by rewrite sortedEvents_perm.
  - intros a b. rewrite sortedEvents_perm. apply Hsep.
  - apply sortedEvents_sorted.
Qed.

(** Once the last-seen id has been met, everything of the stream that
    follows is sent. *)
Lemma replay_loop_found E S (l : list (string * Entry JSONRPCMessage)) :
  Forall (λ p, localeCompare E p.1 = Lt) l →
  replay_loop S E true l = sent_of <$> filter (later_on E S) l.
Proof.
  induction 1 as [|[k e] l Hk _ IH]; [done|]. simpl in Hk. simpl.
  destruct (String.eqb_spec (streamId e) S) as [HS|HS]; simpl.
  - destruct (String.eqb_spec k E) as [->|_].
    { by rewrite collate_refl in Hk. }
    rewrite filter_cons_True by done. by rewrite IH.
  - rewrite filter_cons_False by (by intros [? _]). done.
Qed.

(** Before that, nothing is; the loop splits the sorted array at the
    last-seen id. *)
Lemma replay_loop_sorted E S e0 (l : list (string * Entry JSONRPCMessage)) :
  StronglySorted id_lt l → (E, e0) ∈ l → streamId e0 = S →
  replay_loop S E false l = sent_of <$> filter (later_on E S) l.
Proof.
  intros Hs Hin HS. induction Hs as [|[k e] l Hs IH Hall]; [done|].
  assert (Hnot : localeCompare E k = Lt → (k, e) = (E, e0) ∨ (E, e0) ∈ l → False).
  { intros Hlt [[= -> ->]|Hl].
    - by rewrite collate_refl in Hlt.
    - rewrite Forall_forall in Hall. specialize (Hall _ Hl).
      unfold id_lt in Hall. simpl in Hall.
      apply collate_flip in Hall. congruence. }
  rewrite filter_cons_False.
  2:{ intros [_ Hlt]. apply elem_of_cons in Hin as [?|?]; eapply Hnot; eauto. }
  simpl. apply elem_of_cons in Hin as [[= <- <-]|Hin].
  - rewrite HS, !String.eqb_refl. simpl. apply replay_loop_found.
    eapply Forall_impl; [exact Hall|]. by intros [??].
  - destruct (String.eqb (streamId e) S); simpl; [|by apply IH].
    destruct (String.eqb_spec k E) as [->|_]; [|by apply IH].
    rewrite Forall_forall in Hall. specialize (Hall _ Hin).
    unfold id_lt in Hall. simpl in Hall. by rewrite collate_refl in Hall.
Qed.

Lemma StronglySorted_filter_lt (P : string * Entry JSONRPCMessage → Prop)
    `{!∀ p, Decision (P p)} l :
  StronglySorted id_lt l → StronglySorted id_lt (filter P l).
Proof.
  induction 1 as [|a l Hs IH Hall]; [constructor|].
  rewrite filter_cons. destruct (decide (P a)); [|done].
  constructor; [done|]. apply Forall_forall. intros b [_ Hb]%list_elem_of_filter.
  rewrite Forall_forall in Hall. auto.
Qed.
End Ordered.
End Facts.
End InMemoryEventStoreFacts.

(** ** Code-unit comparison is a collation order *)
Module CodeUnitOrder.

Lemma ascii_compare_refl a : Ascii.compare a a = Eq.
Proof. unfold Ascii.compare. apply N.compare_refl. Qed.

Lemma ascii_compare_trans a b c :
  Ascii.compare a b = Lt → Ascii.compare b c = Lt → Ascii.compare a c = Lt.
Proof. unfold Ascii.compare. rewrite !N.compare_lt_iff. lia. Qed.

Lemma compare_trans a : ∀ b c,
  String.compare a b = Lt → String.compare b c = Lt → String.compare a c = Lt.
Proof.
  induction a as [|x a IH]; intros [|y b] [|z c]; simpl; try done.
  destruct (Ascii.compare x y) eqn:Exy; [|clear IH|done].
  - apply Ascii.compare_eq_iff in Exy as ->.
    destruct (Ascii.compare y z); [apply IH|done|done].
  - intros _. destruct (Ascii.compare y z) eqn:Eyz; [|intros _|done].
    + apply Ascii.compare_eq_iff in Eyz as <-. by rewrite Exy.
    + by rewrite (ascii_compare_trans _ _ _ Exy Eyz).
Qed.

Lemma code_unit_order : @CollationOrder code_unit_collation.
Proof.
  split; unfold localeCompare, code_unit_collation.
  - apply String.compare_antisym.
  - intros a b c Hab Hbc.
    destruct (String.compare a b) eqn:Eab; [| |done].
    { by apply String.compare_eq_iff in Eab as ->. }
    destruct (String.compare b c) eqn:Ebc; [| |done].
    { apply String.compare_eq_iff in Ebc as <-. by rewrite Eab. }
    by rewrite (compare_trans _ _ _ Eab Ebc).
Defined.

Lemma code_unit_separates ids : @separates code_unit_collation ids.
Proof. intros a b _ _. apply String.compare_eq_iff. Qed.

End CodeUnitOrder.

(** ** The event log: claims *)
Section EventLogClaims.
Import JSString JSStringFacts JSMapFacts InMemoryEventStore InMemoryEventStoreFacts.

(** C10.  When [replayEventsAfter] is given the empty string, or an id that
    no [storeEvent] call of the store's history returned, it calls [send]
    for nothing and returns the empty string. *)
Theorem replay_unknown_id_sends_nothing {JSONRPCMessage : Type} `{Collation}
    (calls : list (StoreCall JSONRPCMessage)) (lastEventId : string) :
  lastEventId = "" ∨ lastEventId ∉ call_id <$> calls →
  replayEventsAfter lastEventId (storeAll calls JSMap.empty) = ([], "").
Proof.
  intros Hid. unfold replayEventsAfter.
  destruct Hid as [->|Hid]; [done|].
  destruct (JSMap.has lastEventId (storeAll calls JSMap.empty)) eqn:Hhas.
  - apply has_keys, keys_storeAll in Hhas as [Hk|Hk]; [|done].
    by apply elem_of_nil in Hk.
  - by rewrite orb_true_r.
Qed.

(** C3, as the code has it.  Let [E] be a stored id whose binding is on a
    stream with a non-empty id free of underscores, in a store whose ids the
    collation tells apart.  Then [replayEventsAfter E] returns that stream
    id and sends exactly the stored events of that stream whose ids collate
    strictly after [E], in ascending order of their ids; nothing of another
    stream is sent. *)
Theorem replay_sends_stream_in_id_order {JSONRPCMessage : Type} `{CollationOrder}
    (calls : list (StoreCall JSONRPCMessage)) (E : string) (e0 : Entry JSONRPCMessage) :
  let events := storeAll calls JSMap.empty in
  separates (JSMap.keys events) →
  JSMap.get E events = Some e0 →
  streamId e0 ≠ "" →
  includes "_" (streamId e0) = false →
  (replayEventsAfter E events).2 = streamId e0 ∧
  (∀ k m, (k, m) ∈ (replayEventsAfter E events).1 ↔
     ∃ e, JSMap.get k events = Some e ∧ message e = m ∧
          streamId e = streamId e0 ∧ localeCompare E k = Lt) ∧
  StronglySorted (λ a b, localeCompare a.1 b.1 = Lt) (replayEventsAfter E events).1.
Proof.
  intros events Hsep Hget Hne Hus.
  pose proof (generated_storeAll calls _ generated_empty) as [Hnd Hgen].
  fold events in Hnd, Hgen.
  pose proof (get_Some_elem _ _ _ Hget) as Hin.
  destruct (Hgen _ _ Hin) as (now & rnd & HE).
  assert (Hstream : getStreamIdFromEventId E = streamId e0).
  { rewrite HE. by apply stream_of_generated_id. }
  assert (HEne : is_empty E = false).
  { rewrite HE. unfold generateEventId. by destruct (streamId e0). }
  unfold replayEventsAfter. rewrite HEne. unfold JSMap.has. rewrite Hget. simpl.
  rewrite Hstream, (is_empty_false _ Hne). simpl.
  rewrite (replay_loop_sorted E (streamId e0) e0);
    [|by apply sortedEvents_strict|by rewrite sortedEvents_perm|done].
  split; [done|]. split.
  - intros k m. rewrite list_elem_of_fmap. split.
    + intros ([k' e] & [= -> ->] & [[HS Hlt] Hel]%list_elem_of_filter).
      rewrite sortedEvents_perm in Hel. simpl in *.
      exists e. split_and!; try done. by apply elem_get.
    + intros (e & Hk & <- & HS & Hlt). exists (k, e). split; [done|].
      apply list_elem_of_filter. split; [done|].
      rewrite sortedEvents_perm. by apply get_Some_elem.
  - apply (StronglySorted_fmap _ id_lt); [by intros [??] [??]|].
    apply StronglySorted_filter_lt. by apply sortedEvents_strict.
Qed.
End EventLogClaims.

Section EventLogWitnesses.
Import InMemoryEventStore EventLogExamples.
#[local] Existing Instance code_unit_collation.
#[local] Existing Instance CodeUnitOrder.code_unit_order.

Lemma replay_unknown_id_witness :
  replayEventsAfter "s1_999_zzzzzzzz" (storeAll three_streams JSMap.empty) = ([], "").
Proof.
  apply replay_unknown_id_sends_nothing. right.
  refine (bool_decide_unpack _ _). vm_compute. exact I.
Defined.

Lemma replay_in_id_order_witness :
  let events := storeAll three_streams JSMap.empty in
  (replayEventsAfter "s1_10_k" events).2 = "s1" ∧
  (∀ k m, (k, m) ∈ (replayEventsAfter "s1_10_k" events).1 ↔
     ∃ e, JSMap.get k events = Some e ∧ message e = m ∧
          streamId e = "s1" ∧ localeCompare "s1_10_k" k = Lt) ∧
  StronglySorted (λ a b, localeCompare a.1 b.1 = Lt)
    (replayEventsAfter "s1_10_k" events).1.
Proof.
  apply (replay_sends_stream_in_id_order three_streams "s1_10_k"
           {| message := "a1"; streamId := "s1" |}).
  - apply CodeUnitOrder.code_unit_separates.
  - reflexivity.
  - discriminate.
  - reflexivity.
Defined.

Example replay_three_streams :
  replayEventsAfter "s1_10_k" (storeAll three_streams JSMap.empty)
  = ([("s1_13_k", "a2"); ("s1_15_k", "a3")], "s1").
Proof. reflexivity. Qed.

(** C3 as the claim words it fails: replay does not follow recording
    order.  After the first of two same-millisecond events nothing is
    sent, although the second was recorded after it; and on a stream whose
    id holds an underscore nothing is ever replayed. *)
Lemma replay_not_in_recording_order :
  ¬ (∀ (calls : list (StoreCall string)) i c,
       calls !! i = Some c →
       (replayEventsAfter (call_id c) (storeAll calls JSMap.empty)).1
       = recorded_after calls i).
Proof.
  intros Hclaim. specialize (Hclaim same_ms 0 _ eq_refl).
  vm_compute in Hclaim. discriminate Hclaim.
Qed.

Example replay_same_ms :
  replayEventsAfter "s_1000_bbbbbbbb" (storeAll same_ms JSMap.empty) = ([], "s")
  ∧ recorded_after same_ms 0 = [("s_1000_aaaaaaaa", "second")].
Proof. split; reflexivity. Qed.

Example replay_underscored :
  replayEventsAfter "a_b_1_x" (storeAll underscored JSMap.empty) = ([], "a")
  ∧ recorded_after underscored 0 = [("a_b_2_y", "second")].
Proof. split; reflexivity. Qed.
End EventLogWitnesses.

(** ** Reply normalization *)
Module NormalizeFacts.
Import JS Normalize.
Section Facts.
Context {number : Type} `{JSNumber number}.
Implicit Types (v result text : Value number) (props : list (string * Value number)).

Lemma serialize_structured indent v :
  usable v = true → v ≠ Str "" →
  ∃ s, serialize indent v = Some s ∧ s ≠ "".
Proof.
  destruct v as [| | | |s|items|props]; try done; intros _ Hv; simpl.
  - eexists; split; [done|]. unfold quote, dquote. done.
  - destruct items; eexists; (split; [done|done]).
  - destruct (concat _); eexists; (split; [done|done]).
Qed.

Lemma stringify_structured v :
  usable v = true → typeof v = TObject →
  ∃ s, JSON_stringify v = Str s ∧ s ≠ "".
Proof.
  intros Hu Ht. unfold JSON_stringify.
  destruct (serialize_structured "" v Hu) as (s & -> & Hs); [|by eauto].
  by destruct v.
Qed.

Lemma scan_cons result g fields :
  scan_fields result (g :: fields) =
    (v ← get result g;
     match v with
     | Undefined | Null => scan_fields result fields
     | _ =>
         match typeof v with
         | TString => Normal (v, g)
         | TObject => Normal (JSON_stringify v, g)
         | _ => scan_fields result fields
         end
     end).
Proof. reflexivity. Qed.

#[local] Arguments scan_fields : simpl never.

(** The scan over an object: fields before the first usable one do not
    count. *)
Lemma scan_skips props pre fields :
  (∀ g, g ∈ pre → usable (lookup_prop g props) = false) →
  scan_fields (Object props) (pre ++ fields) = scan_fields (Object props) fields.
Proof.
  induction pre as [|g pre IH]; intros Hpre; [done|].
  rewrite <-app_comm_cons, scan_cons. cbn [get mbind Completion_bind].
  pose proof (Hpre g (list_elem_of_here _ _)) as Hg.
  destruct (lookup_prop g props); try discriminate Hg; cbn [typeof];
    apply IH; intros g' Hg'; apply Hpre; by right.
Qed.

Lemma scan_nothing props fields :
  (∀ g, g ∈ fields → usable (lookup_prop g props) = false) →
  scan_fields (Object props) fields = Normal (Str "", "").
Proof.
  intros Hf. rewrite <-(app_nil_r fields). by rewrite scan_skips.
Qed.

Lemma scan_total props fields : ∃ r, scan_fields (Object props) fields = Normal r.
Proof.
  induction fields as [|g fields IH]; [by eexists|].
  rewrite scan_cons. cbn [get mbind Completion_bind].
  destruct (lookup_prop g props); cbn [typeof]; eauto.
Qed.

Lemma normalize_body_object props :
  normalize_body (Object props) =
    if is_envelope (lookup_prop "content" props) then Normal (Object props)
    else
      r ← scan_fields (Object props) textFields;
      Normal (text_result (if negb (truthy r.1)
                           then JSON_stringify (Object props) else r.1)).
Proof.
  unfold normalize_body. cbn [truthy negb get mbind Completion_bind typeof].
  destruct (is_envelope _); [done|].
  destruct (scan_fields _ _) as [[t u]|e]; [|done].
  cbn [mbind Completion_bind fst]. by destruct (negb (truthy t)).
Qed.

(** Normalizing an object that is not an envelope. *)
Lemma normalize_object props :
  is_canonical (Object props) = false →
  normalize (Object props) =
    (r ← scan_fields (Object props) textFields;
     Normal (text_result (if negb (truthy r.1) then JSON_stringify (Object props) else r.1))).
Proof.
  cbn [is_canonical]. intros Hc. unfold normalize.
  rewrite normalize_body_object, Hc.
  by destruct (scan_total props textFields) as [r ->].
Qed.

(** An envelope comes back as it is. *)
Lemma normalize_canonical v : is_canonical v = true → normalize v = Normal v.
Proof.
  destruct v as [| | | | | |props]; try discriminate. cbn [is_canonical]. intros Hc.
  unfold normalize. by rewrite normalize_body_object, Hc.
Qed.

Lemma text_result_canonical text : is_canonical (text_result text) = true.
Proof. reflexivity. Qed.

(** Anything else comes back as a single text item. *)
Lemma normalize_shape v :
  is_canonical v = false → ∃ text, normalize v = Normal (text_result text).
Proof.
  intros Hc. destruct v as [| |b|n|s|items|props].
  - by eexists.
  - by eexists.
  - destruct b; by eexists.
  - unfold normalize, normalize_body. cbn. destruct (number_is_falsy n); by eexists.
  - destruct s; by eexists.
  - by eexists.
  - rewrite normalize_object by done.
    destruct (scan_total props textFields) as [r ->]. by eexists.
Qed.
End Facts.
End NormalizeFacts.

Section NormalizeClaims.
Import JS Normalize NormalizeFacts.
Context {number : Type} `{JSNumber number}.

(** C5.  Normalization always returns, its result normalizes to itself,
    and a reply that already is an envelope (an object whose [content] is
    a non-empty array) is returned unchanged. *)
Theorem normalize_idempotent (x : Value number) :
  ∃ y, normalize x = Normal y ∧ normalize y = Normal y ∧
       (is_canonical x = true → y = x).
Proof.
  destruct (is_canonical x) eqn:Hc.
  - exists x. by rewrite normalize_canonical.
  - destruct (normalize_shape x Hc) as [text ->].
    exists (text_result text). split; [done|]. split; [|done].
    by apply normalize_canonical.
Qed.

(** C4, as the code has it.  On a mapping reply that is not an envelope,
    the first field of the list holding a string or a structured value
    decides: a non-empty string is the text as it is, a structured value
    is pretty-printed.  Fields that are absent or hold [null], a number or
    a boolean are passed over.  When no listed field decides, or the
    deciding field is the empty string, the text is the pretty-printed
    reply itself. *)
Theorem normalize_field_priority (props : list (string * Value number)) :
  is_canonical (Object props) = false →
  (∀ pre f post v,
     textFields = pre ++ f :: post →
     (∀ g, g ∈ pre → usable (lookup_prop g props) = false) →
     lookup_prop f props = v → usable v = true →
     normalize (Object props) = Normal (text_result
       match v with
       | Str "" => JSON_stringify (Object props)
       | Str s => Str s
       | structured => JSON_stringify structured
       end)) ∧
  ((∀ g, g ∈ textFields → usable (lookup_prop g props) = false) →
   normalize (Object props) = Normal (text_result (JSON_stringify (Object props)))).
Proof.
  intros Hc. split.
  - intros pre f post v Hfields Hpre Hf Hv.
    rewrite normalize_object by done.
    rewrite Hfields, scan_skips, scan_cons by done.
    cbn [get mbind Completion_bind]. rewrite Hf.
    destruct v as [| | | |s|items|props']; try discriminate Hv; cbn [typeof fst].
    + by destruct s.
    + destruct (stringify_structured (Array items)) as (s & Hs & Hne); [done..|].
      rewrite Hs. by destruct s.
    + destruct (stringify_structured (Object props')) as (s & Hs & Hne); [done..|].
      rewrite Hs. by destruct s.
  - intros Hnone. rewrite normalize_object by done.
    by rewrite scan_nothing.
Qed.
End NormalizeClaims.

Section NormalizeWitnesses.
Import JS Normalize NormalizeFacts.

Lemma normalize_idempotent_witness :
  ∃ y : Value Z,
    normalize (Object [("message", Str "hello")]) = Normal y ∧
    normalize y = Normal y ∧
    (is_canonical (Object [("message", Str "hello")] : Value Z) = true →
     y = Object [("message", Str "hello")]).
Proof. exact (normalize_idempotent (Object [("message", Str "hello")])). Defined.

(** The two replies of the specification. *)
Example normalize_message_hello :
  normalize (Object [("message", Str "hello")] : Value Z)
  = Normal (text_result (Str "hello")).
Proof. reflexivity. Qed.

Example normalize_foo_bar :
  normalize (Object [("foo", Str "bar")] : Value Z)
  = Normal (text_result (Str
      ("{" +:+ JSString.nl +:+ "  " +:+ quote "foo" +:+ ": " +:+ quote "bar"
       +:+ JSString.nl +:+ "}"))).
Proof. reflexivity. Qed.

Lemma normalize_field_priority_witness :
  normalize (Object [("data", Str "low"); ("text", Number 5%Z); ("message", Str "hello")])
  = Normal (text_result (Str "hello"))
  ∧ normalize (Object [("foo", Str "bar")] : Value Z)
    = Normal (text_result (JSON_stringify (Object [("foo", Str "bar")] : Value Z))).
Proof.
  split.
  - refine (proj1 (normalize_field_priority
             [("data", Str "low"); ("text", Number 5%Z); ("message", Str "hello")] _)
             ["text"; "content"] "message" _ (Str "hello") _ _ _ _);
      [reflexivity|reflexivity| |reflexivity|reflexivity].
    intros g Hg. apply elem_of_cons in Hg as [->|Hg]; [reflexivity|].
    apply list_elem_of_singleton in Hg as ->. reflexivity.
  - refine (proj2 (normalize_field_priority [("foo", Str "bar")] _) _); [reflexivity|].
    intros g Hg. repeat (apply elem_of_cons in Hg as [->|Hg]; [reflexivity|]).
    by apply elem_of_nil in Hg.
Defined.

(** C4 as the claim words it fails: a listed field that is present with a
    non-null string value is not always the text.  For the reply
    [{"text": ""}] the text is the pretty-printed reply. *)
Lemma normalize_empty_text_falls_back :
  ¬ (∀ (props : list (string * Value Z)) pre f post s,
       is_canonical (Object props) = false →
       textFields = pre ++ f :: post →
       (∀ g, g ∈ pre → lookup_prop g props = Undefined ∨ lookup_prop g props = Null) →
       lookup_prop f props = Str s →
       normalize (Object props) = Normal (text_result (Str s))).
Proof.
  intros Hclaim.
  pose proof (Hclaim [("text", Str "")] [] "text" (tail textFields) ""
                eq_refl eq_refl) as Hc.
  assert (Hn : normalize (Object [("text", Str "")] : Value Z)
               = Normal (text_result (Str ""))).
  { apply Hc; [|reflexivity]. intros g Hg. by apply elem_of_nil in Hg. }
  vm_compute in Hn. discriminate Hn.
Qed.

Example normalize_empty_text :
  normalize (Object [("text", Str "")] : Value Z)
  = Normal (text_result (Str ("{" +:+ JSString.nl +:+ "  " +:+ quote "text" +:+ ": "
                              +:+ quote "" +:+ JSString.nl +:+ "}"))).
Proof. reflexivity. Qed.

Example normalize_number_field_passed_over :
  normalize (Object [("text", Number 5%Z); ("message", Str "hi")])
  = Normal (text_result (Str "hi")).
Proof. reflexivity. Qed.
End NormalizeWitnesses.

(** ** Routing *)
Module RegistryFacts.
Import JSString JSStringFacts JSMapFacts Registry.
Section Facts.
Context {number : Type} `{JSNumber number}.
Implicit Types (conns : Connections number) (c : HamaClientConnection number).

Lemma first_piece_whole local : includes ":" local = false → first_piece local = local.
Proof. intros Hl. unfold first_piece. by rewrite split_no_sep. Qed.

(** What the router makes of a qualified name. *)
Lemma destructure2_qualify server local :
  includes ":" server = false →
  destructure2 (qualify server local) = (server, first_piece local).
Proof.
  intros Hs. unfold destructure2, split_limit, qualify, first_piece.
  change (server +:+ ":" +:+ local) with (server +:+ String ":" local).
  rewrite split_app_sep by done.
  pose proof (split_nonempty ":" local). by destruct (split ":" local).
Qed.

Lemma includes_qualify server local : includes ":" (qualify server local) = true.
Proof. apply includes_app_sep. Qed.

Lemma find_first {A} (P : A → bool) pre x post :
  (∀ y, y ∈ pre → P y = false) → P x = true →
  List.find P (pre ++ x :: post) = Some x.
Proof.
  induction pre as [|y pre IH]; simpl; intros Hpre Hx.
  - by rewrite Hx.
  - rewrite (Hpre y) by left. apply IH; [|done]. intros z Hz. apply Hpre. by right.
Qed.

Lemma find_nothing {A} (P : A → bool) l :
  (∀ y, y ∈ l → P y = false) → List.find P l = None.
Proof.
  induction l as [|y l IH]; simpl; intros Hl; [done|].
  rewrite (Hl y) by left. apply IH. intros z Hz. apply Hl. by right.
Qed.

Section Resolve.
Variable defines : string → HamaClientConnection number → bool.
Variable notFound : string.

Lemma resolve_qualified conns server local c :
  includes ":" server = false →
  JSMap.get server conns = Some c → active c = true →
  resolve defines notFound conns (qualify server local)
  = Normal (c, first_piece local).
Proof.
  intros Hs Hget Hact. unfold resolve.
  rewrite includes_qualify, destructure2_qualify by done.
  cbn [mbind Completion_bind]. by rewrite Hget, Hact.
Qed.

Lemma resolve_first_match conns given pre k c post :
  includes ":" given = false → keyed_by_name conns →
  conns = pre ++ (k, c) :: post →
  (∀ k' c', (k', c') ∈ pre → active c' && defines given c' = false) →
  active c = true → defines given c = true →
  resolve defines notFound conns given = Normal (c, given).
Proof.
  intros Hg [Hnd Hkey] Hconns Hpre Hact Hdef. unfold resolve, find_connection.
  rewrite Hg. unfold JSMap.values. rewrite Hconns at 1.
  rewrite fmap_app, fmap_cons. cbn [snd].
  rewrite find_first; [| |by rewrite Hact, Hdef].
  2:{ intros c' ([k' c''] & -> & Hin)%list_elem_of_fmap. by eapply Hpre. }
  cbn [mbind Completion_bind].
  assert (Hin : (k, c) ∈ conns).
  { rewrite Hconns. apply elem_of_app. right. left. }
  rewrite (Hkey _ _ Hin), (elem_get _ _ _ Hnd Hin). by rewrite Hact.
Qed.

Lemma resolve_not_found conns given :
  includes ":" given = false →
  (∀ k c, (k, c) ∈ conns → active c && defines given c = false) →
  resolve defines notFound conns given
  = Throw (JSError.Error (notFound +:+ given)).
Proof.
  intros Hg Hnone. unfold resolve, find_connection. rewrite Hg.
  rewrite find_nothing; [done|].
  intros c ([k c'] & -> & Hin)%list_elem_of_fmap. by eapply Hnone.
Qed.
End Resolve.
End Facts.
End RegistryFacts.

Section RoutingClaims.
Import JSString JS Registry RegistryFacts CallTool.
Context {number : Type} `{JSNumber number}.

(** C6, as the code has it.  A qualified name [serverA:toolX] in which
    neither [serverA] nor [toolX] holds the separator goes to the active
    connection registered as [serverA], with the name [toolX], whatever the
    other connections define.  A name without a separator goes to the first
    connection, in registration order, that is active and lists it.  When
    no active connection lists it the call is rejected with the not-found
    error. *)
Theorem callTool_resolution (world : Backend number) (conns : Connections number)
    (params : Value number) :
  (∀ serverA toolX c,
     includes ":" serverA = false → includes ":" toolX = false →
     JSMap.get serverA conns = Some c → active c = true →
     resolveTool conns (qualify serverA toolX) = Normal (c, toolX) ∧
     callTool world conns (qualify serverA toolX) params
     = dispatch world c toolX params) ∧
  (∀ toolX pre k c post,
     includes ":" toolX = false → keyed_by_name conns →
     conns = pre ++ (k, c) :: post →
     (∀ k' c', (k', c') ∈ pre → active c' && some_named toolX (tools c') = false) →
     active c = true → some_named toolX (tools c) = true →
     resolveTool conns toolX = Normal (c, toolX) ∧
     callTool world conns toolX params = dispatch world c toolX params) ∧
  (∀ toolX,
     includes ":" toolX = false →
     (∀ k c, (k, c) ∈ conns → active c && some_named toolX (tools c) = false) →
     callTool world conns toolX params
     = Done (Throw (JSError.Error ("도구를 찾을 수 없습니다: " +:+ toolX)))).
Proof.
  split_and!.
  - intros serverA toolX c Hs Ht Hget Hact.
    assert (Hr : resolveTool conns (qualify serverA toolX) = Normal (c, toolX)).
    { unfold resolveTool. rewrite (resolve_qualified _ _ _ _ _ c) by done.
      by rewrite first_piece_whole. }
    split; [done|]. unfold callTool. by rewrite Hr.
  - intros toolX pre k c post Ht Hkey Hconns Hpre Hact Hdef.
    assert (Hr : resolveTool conns toolX = Normal (c, toolX)).
    { unfold resolveTool. by eapply resolve_first_match. }
    split; [done|]. unfold callTool. by rewrite Hr.
  - intros toolX Ht Hnone. unfold callTool, resolveTool.
    by rewrite resolve_not_found.
Qed.
End RoutingClaims.

Section RoutingWitnesses.
Import JS Registry RegistryFacts CallTool RoutingExamples Normalize.

Lemma callTool_resolution_witness :
  resolveTool both (qualify "serverA" "toolX") = Normal (serverA, "toolX") ∧
  callTool echo both (qualify "serverA" "toolX") (Object [])
  = dispatch echo serverA "toolX" (Object []).
Proof.
  refine (proj1 (callTool_resolution echo both (Object [])) "serverA" "toolX" serverA _ _ _ _);
    reflexivity.
Defined.

(** C6 as the claim words it fails: a qualified name does not always reach
    the named server's tool of that name.  The tool [ns:run] of backend
    [fs], called as [fs:ns:run], is dispatched as the tool [ns]. *)
Lemma qualified_tool_with_separator_misrouted :
  ¬ (∀ (conns : Connections Z) serverA toolX c,
       JSMap.get serverA conns = Some c → active c = true →
       resolveTool conns (qualify serverA toolX) = Normal (c, toolX)).
Proof.
  intros Hclaim.
  pose proof (Hclaim only_fs "fs" "ns:run" fs eq_refl eq_refl) as Hroute.
  vm_compute in Hroute. discriminate Hroute.
Qed.

Example callTool_qualified :
  callTool echo both "serverA:toolX" (Object [])
  = Done (Normal (text_result (Str "serverA/toolX"))).
Proof. reflexivity. Qed.

Example callTool_unqualified_first_registered :
  callTool echo both "toolX" (Object [])
  = Done (Normal (text_result (Str "serverB/toolX"))).
Proof. reflexivity. Qed.

Example callTool_unknown :
  callTool echo both "toolZ" (Object [])
  = Done (Throw (JSError.Error "도구를 찾을 수 없습니다: toolZ")).
Proof. reflexivity. Qed.

(** C2.  The listing qualifies the resource [file:///a.txt] of backend
    [fs] as [fs:file:///a.txt]; the router, given that name, reads the
    resource [file] from [fs]: the local name is cut at its own first
    separator.  The same happens to the tool [ns:run]. *)
Theorem qualified_name_cut_at_second_separator :
  qualified <$> getUnifiedResources only_fs = ["fs:file:///a.txt"] ∧
  resolveResource only_fs "fs:file:///a.txt" = Normal (fs, "file") ∧
  qualified <$> getUnifiedTools only_fs = ["fs:ns:run"] ∧
  resolveTool only_fs "fs:ns:run" = Normal (fs, "ns") ∧
  callTool echo only_fs "fs:ns:run" (Object [])
  = Done (Normal (text_result (Str "fs/ns"))).
Proof. split_and!; reflexivity. Qed.
End RoutingWitnesses.

(** ** The schema-bypass recovery *)
Module BypassFacts.
Import Bypass.
Section Facts.
Context {number : Type} `{JSNumber number}.
Implicit Types (t : Transport number) (h : Handler) (m : Message number).

(** An interceptor is never the handler it wraps. *)
Lemma Interceptor_neq h call requestId : Interceptor call requestId h ≠ h.
Proof.
  revert call requestId. induction h as [| |c r h IH]; intros call requestId; try done.
  intros [= -> -> Hh]. by apply IH in Hh.
Qed.

(** The recovery that [callToolDirectly] has just started. *)
Lemma started_lookup (p : Promise number) t :
  (recoveries t ++ [{| timeout := true; promise := p |}]) !! length (recoveries t)
  = Some {| timeout := true; promise := p |}.
Proof. by rewrite list_lookup_middle. Qed.

Lemma promise_of_settle call p t :
  promise_of call (settle call p t)
  = match recoveries t !! call with
    | Some r => match promise r with Pending => p | settled => settled end
    | None => Pending
    end.
Proof.
  unfold promise_of, settle, alter_recovery. cbn [recoveries].
  rewrite list_lookup_alter_eq. by destruct (recoveries t !! call).
Qed.

Lemma lookup_disarm call t :
  recoveries (disarm call t) !! call
  = (λ r, {| timeout := false; promise := promise r |}) <$> recoveries t !! call.
Proof. unfold disarm, alter_recovery. cbn [recoveries]. apply list_lookup_alter_eq. Qed.

(** When the timer fires on a pending recovery, the promise is rejected
    and nothing else changes: the interceptor stays in place. *)
Lemma timer_fires call t r :
  recoveries t !! call = Some r → timeout r = true → promise r = Pending →
  promise_of call (step t (TimerFires call))
  = Rejected (JSError.Error "직접 호출 타임아웃") ∧
  onmessage (step t (TimerFires call)) = onmessage t ∧
  delivered (step t (TimerFires call)) = delivered t.
Proof.
  intros Hr Ht Hp. cbn [step]. rewrite Hr, Ht. split; [|done].
  rewrite promise_of_settle, lookup_disarm, Hr. cbn. by rewrite Hp.
Qed.

(** A reply with the recovery's id puts the replaced handler back and
    never reaches it. *)
Lemma matching_reply call requestId h m t :
  onmessage t = Interceptor call requestId h → id m = Some requestId →
  onmessage (step t (Arrives m)) = h ∧
  delivered (step t (Arrives m)) = delivered t.
Proof.
  intros Ho Hid. cbn [step]. rewrite Ho. cbn [handle].
  rewrite Hid, bool_decide_eq_true_2 by done.
  by destruct (error m).
Qed.

(** So does a [send] that throws. *)
Lemma send_throws_restores now e toolName params t :
  onmessage (callToolDirectly now (SendThrows e) toolName params t).1 = onmessage t ∧
  promise_of (length (recoveries t))
    (callToolDirectly now (SendThrows e) toolName params t).1 = Rejected e.
Proof.
  split; [done|]. cbn [callToolDirectly fst].
  rewrite promise_of_settle. unfold set_onmessage. cbn [recoveries].
  unfold clearTimeout. rewrite lookup_disarm. cbn [recoveries].
  by rewrite started_lookup.
Qed.
End Facts.
End BypassFacts.

Section BypassClaims.
Import JS Bypass BypassFacts.
Context {number : Type} `{JSNumber number}.

(** C1.  After a recovery has timed out, [onmessage] still holds the
    recovery's interceptor, not the handler that was installed before; a
    reply that then arrives for the recovery's request never reaches that
    handler, and only this reply puts it back. *)
Theorem timeout_leaves_interceptor (t : Transport number) (now : Z)
    (toolName : string) (params : Value number) :
  let started := callToolDirectly now SendReturns toolName params t in
  let call := started.2 in
  let timed_out := step started.1 (TimerFires call) in
  let late := {| id := Some now; error := None; result := Null |} in
  promise_of call timed_out = Rejected (JSError.Error "직접 호출 타임아웃") ∧
  onmessage timed_out = Interceptor call now (onmessage t) ∧
  onmessage timed_out ≠ onmessage t ∧
  delivered (step timed_out (Arrives late)) = delivered t ∧
  onmessage (step timed_out (Arrives late)) = onmessage t.
Proof.
  intros started call timed_out late.
  destruct (timer_fires call started.1 {| timeout := true; promise := Pending |})
    as (Hp & Ho & Hd); [apply started_lookup|done|done|].
  fold timed_out in Hp, Ho, Hd.
  assert (Ho' : onmessage timed_out = Interceptor call now (onmessage t)).
  { by rewrite Ho. }
  destruct (matching_reply call now (onmessage t) late timed_out Ho' eq_refl)
    as [Hback Hsame].
  split_and!; try done.
  - rewrite Ho'. apply Interceptor_neq.
  - by rewrite Hsame, Hd.
Qed.
End BypassClaims.

(** ** callTool and the failed recovery *)
Module CallToolFacts.
Import JS Registry Bypass BypassFacts CallTool.
Section Facts.
Context {number : Type} `{JSNumber number}.
Implicit Types (world : Backend number) (c : HamaClientConnection number).

(** The recovery is rejected when its timer fires first. *)
Lemma await_timeout world c toolName params t :
  client_transport world (serverName c) = Some t →
  transport_send world = SendReturns →
  arrivals world = [TimerFires (length (recoveries t))] →
  await_callToolDirectly world c toolName params
  = Done (Throw (JSError.Error "직접 호출 타임아웃")).
Proof.
  intros Ht Hs Ha. unfold await_callToolDirectly. rewrite Ht, Hs, Ha.
  cbn [callToolDirectly run foldl].
  match goal with |- context [step ?t1 _] =>
    destruct (timer_fires (length (recoveries t)) t1
                {| timeout := true; promise := Pending |}) as (-> & _);
      [apply started_lookup|done|done|done]
  end.
Qed.

(** The recovery is rejected when the backend answers its request with
    an error. *)
Lemma await_error_reply world c toolName params t m msg :
  client_transport world (serverName c) = Some t →
  transport_send world = SendReturns →
  arrivals world = [Arrives m] →
  id m = Some (Date_now world) → error m = Some msg →
  await_callToolDirectly world c toolName params
  = Done (Throw (JSError.Error (or_else msg "도구 호출 오류"))).
Proof.
  intros Ht Hs Ha Hid He. unfold await_callToolDirectly. rewrite Ht, Hs, Ha.
  cbn [callToolDirectly run foldl step onmessage handle].
  rewrite Hid, bool_decide_eq_true_2, He by done.
  rewrite promise_of_settle. unfold set_onmessage, clearTimeout. cbn [recoveries].
  rewrite lookup_disarm. cbn [recoveries]. by rewrite started_lookup.
Qed.
End Facts.
End CallToolFacts.

Section CallToolClaims.
Import JS Registry Normalize Bypass CallTool CallToolFacts.
Context {number : Type} `{JSNumber number}.

(** C8.  When the client rejects a tool's reply with a [ZodError] and the
    recovery is rejected too, [callTool] returns a single text item that
    carries the message of the validation error, and throws nothing; a
    recovery whose timer fires, or whose request is answered with an
    error, is such a recovery. *)
Theorem callTool_absorbs_recovery_failure (world : Backend number)
    (conns : Connections number) (toolName : string) (params : Value number)
    (c : HamaClientConnection number) (actual : string) (error : JSError.t) :
  resolveTool conns toolName = Normal (c, actual) →
  client_callTool world (serverName c) actual params = Throw error →
  JSError.name error = "ZodError" → JSError.issues error = true →
  let described := text_result (Str (
    "도구 실행 오류: MCP 응답 형식 문제 (" +:+ actual +:+ ")" +:+ JSString.nl
    +:+ "오류 세부사항: " +:+ JSError.message error)) in
  (∀ directError,
     await_callToolDirectly world c actual params = Done (Throw directError) →
     callTool world conns toolName params = Done (Normal described)) ∧
  (∀ t, client_transport world (serverName c) = Some t →
        transport_send world = SendReturns →
        arrivals world = [TimerFires (length (recoveries t))] →
        callTool world conns toolName params = Done (Normal described)) ∧
  (∀ t m msg, client_transport world (serverName c) = Some t →
        transport_send world = SendReturns →
        arrivals world = [Arrives m] →
        Bypass.id m = Some (Date_now world) → Bypass.error m = Some msg →
        callTool world conns toolName params = Done (Normal described)).
Proof.
  intros Hres Hcall Hname Hissues described.
  assert (Hfail : ∀ directError,
    await_callToolDirectly world c actual params = Done (Throw directError) →
    callTool world conns toolName params = Done (Normal described)).
  { intros directError Hdirect. unfold callTool, dispatch, invoke.
    by rewrite Hres, Hcall, Hname, Hissues, Hdirect. }
  split_and!; [done| |].
  - intros t Ht Hs Ha. eapply Hfail. by eapply await_timeout.
  - intros t m msg Ht Hs Ha Hid He. eapply Hfail. by eapply await_error_reply.
Qed.
End CallToolClaims.

Section RecoveryWitnesses.
Import JS Registry Normalize Bypass CallTool RoutingExamples RecoveryExamples.

Lemma callTool_absorbs_recovery_failure_witness :
  callTool silent both "serverA:toolX" (Object [])
  = Done (Normal (text_result (Str (
      "도구 실행 오류: MCP 응답 형식 문제 (toolX)" +:+ JSString.nl
      +:+ "오류 세부사항: invalid content")))).
Proof.
  refine (proj1 (proj2 (callTool_absorbs_recovery_failure silent both "serverA:toolX"
            (Object []) serverA "toolX" zod _ _ _ _)) connected _ _ _);
    reflexivity.
Defined.

(** The transport after a recovery that timed out: ordinary replies still
    pass through the interceptor, the late reply is dropped. *)
Example after_timeout :
  let t := run [TimerFires 0]
             (callToolDirectly 1700000000000 SendReturns "toolX" (Object []) connected).1 in
  onmessage t = Interceptor 0 1700000000000 ClientHandler ∧
  delivered (run [Arrives ordinary; Arrives late] t) = [ordinary] ∧
  onmessage (run [Arrives ordinary] t) = Interceptor 0 1700000000000 ClientHandler.
Proof. split_and!; reflexivity. Qed.
End RecoveryWitnesses.

(** ** Connecting the backends *)
Module ConnectFacts.
Import JSMapFacts Registry Connect.
Section Facts.
Context {number : Type} `{JSNumber number}.
Variable launch : string → ServerConfig → Launch number.

Lemma attempt_get conns name serverConfig :
  JSMap.get name (attempt launch conns (name, serverConfig))
  = match connect (launch name serverConfig) with
    | Normal _ => Some (registered launch name serverConfig)
    | Throw _ => JSMap.get name conns
    end.
Proof.
  unfold attempt, connectToServer. cbn [fst snd].
  destruct (connect _); cbn; [|done]. apply get_set_eq.
Qed.

Lemma attempt_get_other conns k serverConfig name :
  k ≠ name →
  JSMap.get name (attempt launch conns (k, serverConfig)) = JSMap.get name conns.
Proof.
  intros Hne. unfold attempt, connectToServer. cbn [fst snd].
  destruct (connect _); cbn; [|done]. by apply get_set_ne.
Qed.

(** The registry stays keyed by server name. *)
Lemma keyed_by_name_attempt conns entry :
  keyed_by_name conns → keyed_by_name (attempt launch conns entry).
Proof.
  intros [Hnd Hkey]. unfold attempt, connectToServer.
  destruct (connect _); cbn; [|done]. split.
  - by apply NoDup_keys_set.
  - intros k c [[= -> ->]|Hin]%elem_of_set; [done|by apply Hkey].
Qed.

Lemma keyed_by_name_attempts finished conns :
  keyed_by_name conns → keyed_by_name (foldl (attempt launch) conns finished).
Proof.
  revert conns. induction finished as [|e finished IH]; intros conns Hk; [done|].
  cbn [foldl]. by apply IH, keyed_by_name_attempt.
Qed.

(** Each attempt decides the binding of its own name and of no other. *)
Lemma get_after_attempts finished :
  NoDup finished.*1 → ∀ conns name,
  JSMap.get name (foldl (attempt launch) conns finished)
  = match JSMap.get name finished with
    | Some serverConfig =>
        match connect (launch name serverConfig) with
        | Normal _ => Some (registered launch name serverConfig)
        | Throw _ => JSMap.get name conns
        end
    | None => JSMap.get name conns
    end.
Proof.
  induction finished as [|[k sc] finished IH]; intros Hnd conns name; [done|].
  rewrite fmap_cons in Hnd. apply NoDup_cons in Hnd as [Hk Hnd].
  cbn [foldl JSMap.get]. rewrite IH by done.
  destruct (String.eqb_spec k name) as [->|Hne].
  - apply (get_None_keys finished name) in Hk. rewrite Hk. apply attempt_get.
  - rewrite attempt_get_other by done. done.
Qed.
End Facts.
End ConnectFacts.

Section ConnectClaims.
Import JSMapFacts Registry Connect ConnectFacts.
Context {number : Type} `{JSNumber number}.

(** C7.  Whatever each backend does when launched and in whatever order
    the attempts finish, [connectAllServers] returns, and the registry it
    leaves binds exactly the configured backends whose [connect]
    succeeded, each as an active connection. *)
Theorem connectAllServers_isolates_failures
    (launch : string → ServerConfig → Launch number) (config : HamaServerConfig)
    (finished : list (string * ServerConfig)) :
  NoDup (hamaServers config).*1 →
  finished ≡ₚ hamaServers config →
  ∃ conns,
    connectAllServers launch (Some config) finished JSMap.empty = Normal conns ∧
    (∀ name serverConfig, (name, serverConfig) ∈ hamaServers config →
       JSMap.get name conns
       = match connect (launch name serverConfig) with
         | Normal _ => Some (registered launch name serverConfig)
         | Throw _ => None
         end) ∧
    (∀ name, name ∉ (hamaServers config).*1 → JSMap.get name conns = None).
Proof.
  intros Hnd Hperm. eexists. split; [done|].
  assert (Hnd' : NoDup finished.*1) by by rewrite Hperm.
  split.
  - intros name sc Hin. rewrite get_after_attempts by done.
    rewrite <-Hperm in Hin. by rewrite (elem_get _ _ _ Hnd' Hin).
  - intros name Hname. rewrite get_after_attempts by done.
    rewrite <-Hperm in Hname. apply (get_None_keys finished) in Hname.
    by rewrite Hname.
Qed.
End ConnectClaims.

Section ConnectWitnesses.
Import JS Registry Connect ConnectFacts ConnectExamples.

Lemma connectAllServers_witness :
  ∃ conns,
    connectAllServers launch (Some two) [("bad", bad); ("good", good)] JSMap.empty
    = Normal conns ∧
    (∀ name serverConfig, (name, serverConfig) ∈ hamaServers two →
       JSMap.get name conns
       = match connect (launch name serverConfig) with
         | Normal _ => Some (registered launch name serverConfig)
         | Throw _ => None
         end) ∧
    (∀ name, name ∉ (hamaServers two).*1 → JSMap.get name conns = None).
Proof.
  apply (connectAllServers_isolates_failures launch two [("bad", bad); ("good", good)]).
  - refine (bool_decide_unpack _ _). vm_compute. exact I.
  - apply Permutation_swap.
Defined.

Example connect_two :
  connectAllServers launch (Some two) [("bad", bad); ("good", good)] JSMap.empty
  = Normal [("good", {| serverName := "good"; active := true;
                        tools := [{| name := "run"; descriptor := Object [] |}];
                        prompts := []; resources := [] |})]
  ∧ qualified <$> getUnifiedTools (number:=Z)
      [("good", {| serverName := "good"; active := true;
                   tools := [{| name := "run"; descriptor := Object [] |}];
                   prompts := []; resources := [] |})] = ["good:run"].
Proof. split; reflexivity. Qed.
End ConnectWitnesses.

(** ** Front-end sessions *)
Module SessionsFacts.
Import Sessions.

(** Closing the endpoint never throws out of the handler; it records the
    call and, when [close] threw, the error. *)
Lemma close_server_returns server outcome st :
  ∃ st', close_server server outcome st = Normal st' ∧
         activeSSETransports st' = activeSSETransports st ∧
         activeStreamTransports st' = activeStreamTransports st ∧
         closed st' = closed st ++ [server].
Proof. destruct outcome as [[]|e]; eexists; (split; [reflexivity|done]). Qed.

Lemma sse_on_close_returns sessionId server outcome st :
  ∃ st', sse_on_close sessionId server outcome st = Normal st' ∧
         activeSSETransports st' = delete sessionId (activeSSETransports st) ∧
         activeStreamTransports st' = activeStreamTransports st ∧
         closed st' = closed st ++ [server].
Proof.
  unfold sse_on_close.
  destruct (close_server_returns server outcome st) as (st' & -> & <- & <- & <-).
  eexists; split; [reflexivity|done].
Qed.
End SessionsFacts.

Section SessionsClaims.
Import Sessions SessionsFacts.

End SessionsClaims.

Section SessionsWitnesses.
Import Sessions SessionsExamples.


(** On the SSE flavor the second close is not a no-op: it closes the
    endpoint again. *)
Lemma sse_second_close_closes_again :
  ¬ (∀ st sessionId server first second st1,
       sse_on_close sessionId server first st = Normal st1 →
       sse_on_close sessionId server second st1 = Normal st1).
Proof.
  intros Hclaim.
  pose proof (Hclaim open "a1c9" 5 (Normal ()) (Normal ()) _ eq_refl) as Hsecond.
  apply (f_equal (λ c, match c with Normal st => closed st | Throw _ => [] end)) in Hsecond.
  vm_compute in Hsecond. discriminate Hsecond.
Qed.

Example sse_closed_twice :
  (st1 ← sse_on_close "a1c9" 5 (Normal ()) open;
   st2 ← sse_on_close "a1c9" 5 (Throw (JSError.Error "Not connected")) st1;
   Normal (closed st1, closed st2, console st2))
  = Normal ([5], [5; 5], [JSError.Error "Not connected"]).
Proof. reflexivity. Qed.
End SessionsWitnesses.

(* ================================================================== *)
(** * Further properties of the code *)
(* ================================================================== *)

(** ** The event store *)
Module EventStoreMore.
Import JSString JSStringFacts JSMapFacts InMemoryEventStore InMemoryEventStoreFacts.
Section Facts.
Context {JSONRPCMessage : Type}.
Context `{Collation}.

Lemma size_set (m : Events JSONRPCMessage) k v :
  JSMap.size (JSMap.set k v m) = if JSMap.has k m then JSMap.size m else S (JSMap.size m).
Proof.
  unfold JSMap.size. rewrite <-!(length_fmap fst). fold (JSMap.keys (JSMap.set k v m)).
  fold (JSMap.keys m). rewrite keys_set. destruct (JSMap.has k m); [done|].
  rewrite length_app. simpl. lia.
Qed.

(** What the loop sends comes from the array it walks, is on the stream
    asked for, and is never the last-seen event itself. *)
Lemma replay_loop_sound stream E found (l : list (string * Entry JSONRPCMessage)) k m :
  (k, m) ∈ replay_loop stream E found l →
  k ≠ E ∧ ∃ e, (k, e) ∈ l ∧ message e = m ∧ streamId e = stream.
Proof.
  revert found. induction l as [|[k' e'] l IH]; intros found; cbn [replay_loop].
  { by intros ?%elem_of_nil. }
  assert (Hrest : ∀ f, (k, m) ∈ replay_loop stream E f l →
            k ≠ E ∧ ∃ e, (k, e) ∈ (k', e') :: l ∧ message e = m ∧ streamId e = stream).
  { intros f Hf. destruct (IH _ Hf) as (? & e & ? & ? & ?).
    split; [done|]. exists e. split; [by right|done]. }
  destruct (String.eqb_spec (streamId e') stream) as [HS|HS]; cbn [negb]; [|by eauto].
  destruct (String.eqb_spec k' E) as [HE|HE]; [by eauto|].
  destruct found; [|by eauto].
  intros [[= -> ->]|Hin]%elem_of_cons; [|by eauto].
  split; [done|]. exists e'. split; [left|done].
Qed.

Lemma sorted_perm (events : Events JSONRPCMessage) : sortedEvents events ≡ₚ events.
Proof.
  unfold sortedEvents, JSMap.entries, sort.
  induction events as [|x l IH]; [done|].
  cbn [foldr]. rewrite <-IH at 2. clear IH.
  generalize (foldr insert_sorted [] l). intros l'.
  induction l' as [|y l' IH]; [done|]. cbn [insert_sorted].
  destruct (decide (id_le x y)); [done|]. by rewrite IH, Permutation_swap.
Qed.
End Facts.
End EventStoreMore.

Section EventStoreExtras.
Import JSString JSStringFacts JSMapFacts InMemoryEventStore InMemoryEventStoreFacts
  EventStoreMore.

(** X1.  The stream id read back from a generated event id is the text of
    the stream id before its first underscore: the stream id itself when it
    holds none, and only its first piece when it does. *)
Theorem generated_id_names_first_piece (stream rest : string) (now : N) (rnd : string) :
  includes "_" stream = false →
  getStreamIdFromEventId (generateEventId stream now rnd) = stream ∧
  getStreamIdFromEventId (generateEventId (stream +:+ "_" +:+ rest) now rnd) = stream.
Proof.
  intros Hs. split; [by apply stream_of_generated_id|].
  unfold getStreamIdFromEventId, generateEventId.
  change ((stream +:+ "_" +:+ rest) +:+ ?r) with ((stream +:+ String "_" rest) +:+ r).
  assert (Happ : ∀ a b c, (a +:+ b) +:+ c = a +:+ (b +:+ c)).
  { intros a b c. induction a as [|x a IH]; [done|].
    change (String x ((a +:+ b) +:+ c) = String x (a +:+ b +:+ c)). by f_equal. }
  rewrite Happ. change (String "_" rest +:+ ?r) with (String "_" (rest +:+ r)).
  by rewrite split_app_sep.
Qed.

(** X2.  [storeEvent] binds the id it returns to the message and its
    stream, leaves the binding of every other id as it was, and grows the
    store by one entry unless the id was already there, in which case the
    earlier event under that id is replaced. *)
Theorem storeEvent_binds_returned_id {JSONRPCMessage : Type}
    (stream : string) (msg : JSONRPCMessage) (now : N) (rnd : string)
    (events : Events JSONRPCMessage) :
  let stored := storeEvent stream msg now rnd events in
  stored.2 = generateEventId stream now rnd ∧
  JSMap.get stored.2 stored.1 = Some {| message := msg; streamId := stream |} ∧
  (∀ k, k ≠ stored.2 → JSMap.get k stored.1 = JSMap.get k events) ∧
  JSMap.size stored.1
  = if JSMap.has stored.2 events then JSMap.size events else S (JSMap.size events).
Proof.
  intros stored. subst stored. unfold storeEvent. cbn [fst snd].
  split_and!; [done| | |].
  - apply get_set_eq.
  - intros k Hk. apply get_set_ne. congruence.
  - apply size_set.
Qed.

(** X3.  Whatever the collation and whatever the store holds, every event
    that [replayEventsAfter] sends is a stored event on the stream named by
    the text of the last-seen id before its first underscore, and the
    last-seen event itself is never sent. *)
Theorem replay_sends_only_named_stream {JSONRPCMessage : Type} `{Collation}
    (events : Events JSONRPCMessage) (lastEventId k : string) (m : JSONRPCMessage) :
  (k, m) ∈ (replayEventsAfter lastEventId events).1 →
  k ≠ lastEventId ∧
  ∃ e, (k, e) ∈ events ∧ message e = m ∧
       streamId e = getStreamIdFromEventId lastEventId.
Proof.
  unfold replayEventsAfter.
  destruct (is_empty lastEventId || negb (JSMap.has lastEventId events));
    [by intros ?%elem_of_nil|].
  destruct (is_empty (getStreamIdFromEventId lastEventId));
    [by intros ?%elem_of_nil|].
  cbn [fst]. intros (Hk & e & Hin & Hm & Hs)%replay_loop_sound.
  split; [done|]. exists e. by rewrite <-(sorted_perm events).
Qed.

(** X4.  With a collation that orders the stored ids strictly, replay does
    not depend on the order in which the events were stored: two stores with
    the same bindings replay the same events in the same order. *)
Theorem replay_ignores_insertion_order {JSONRPCMessage : Type} `{CollationOrder}
    (events1 events2 : Events JSONRPCMessage) (lastEventId : string) :
  NoDup (JSMap.keys events1) → separates (JSMap.keys events1) →
  events1 ≡ₚ events2 →
  replayEventsAfter lastEventId events1 = replayEventsAfter lastEventId events2.
Proof.
  intros Hnd Hsep Hperm.
  assert (Hhas : JSMap.has lastEventId events1 = JSMap.has lastEventId events2).
  { apply eq_true_iff_eq. rewrite !has_keys. unfold JSMap.keys. by rewrite Hperm. }
  assert (Hsorted : sortedEvents events1 = sortedEvents events2).
  { apply (StronglySorted_unique_strong id_le).
    - intros [k1 e1] [k2 e2] H1 H2 Hle1 Hle2. unfold id_le in *. cbn [fst] in *.
      rewrite sortedEvents_perm in H1. rewrite sortedEvents_perm, <-Hperm in H2.
      assert (k1 = k2) as <-.
      { apply Hsep.
        - apply (list_elem_of_fmap_2 fst _ _ H1).
        - apply (list_elem_of_fmap_2 fst _ _ H2).
        - rewrite collate_antisym in Hle2.
          destruct (localeCompare k1 k2); done. }
      f_equal. apply (elem_get _ _ _ Hnd) in H1, H2. congruence.
    - apply sortedEvents_sorted.
    - apply sortedEvents_sorted.
    - by rewrite !sortedEvents_perm. }
  unfold replayEventsAfter. by rewrite Hhas, Hsorted.
Qed.
End EventStoreExtras.

Section EventStoreExtrasWitnesses.
Import InMemoryEventStore EventLogExamples.
#[local] Existing Instance code_unit_collation.
#[local] Existing Instance CodeUnitOrder.code_unit_order.

Lemma generated_id_names_first_piece_witness :
  getStreamIdFromEventId (generateEventId "a" 1 "x") = "a" ∧
  getStreamIdFromEventId (generateEventId "a_b" 1 "x") = "a".
Proof. apply (generated_id_names_first_piece "a" "b" 1 "x"). reflexivity. Defined.

Lemma replay_sends_only_named_stream_witness :
  "s1_13_k" ≠ "s1_10_k" ∧
  ∃ e, ("s1_13_k", e) ∈ storeAll three_streams JSMap.empty ∧ message e = "a2" ∧
       streamId e = getStreamIdFromEventId "s1_10_k".
Proof.
  apply (replay_sends_only_named_stream (storeAll three_streams JSMap.empty)
           "s1_10_k" "s1_13_k" "a2").
  vm_compute. left.
Defined.

Lemma replay_ignores_insertion_order_witness :
  replayEventsAfter "s1_10_k" (storeAll three_streams JSMap.empty)
  = replayEventsAfter "s1_10_k" (reverse (storeAll three_streams JSMap.empty)).
Proof.
  apply replay_ignores_insertion_order.
  - refine (bool_decide_unpack _ _). vm_compute. exact I.
  - apply CodeUnitOrder.code_unit_separates.
  - symmetry. apply reverse_Permutation.
Defined.
End EventStoreExtrasWitnesses.

(** ** Replies and callTool *)
Module ReplyMore.
Import JS Registry Normalize NormalizeFacts Bypass BypassFacts CallTool CallToolFacts.
Section Facts.
Context {number : Type} `{JSNumber number}.

Lemma normalize_gives_envelope (x y : Value number) :
  normalize x = Normal y → is_canonical y = true.
Proof.
  destruct (is_canonical x) eqn:Hc.
  - rewrite normalize_canonical by done. by intros [= <-].
  - destruct (normalize_shape x Hc) as [text ->]. by intros [= <-].
Qed.

(** No listed field is found on an array. *)
Lemma scan_array (items : list (Value number)) fields :
  scan_fields (Array items) fields = Normal (Str "", "").
Proof. induction fields as [|g fields IH]; [done|]. by rewrite scan_cons. Qed.

(** The recovery is fulfilled when the backend answers its request
    without an error. *)
Lemma await_reply (world : Backend number) (c : HamaClientConnection number)
    toolName params t m :
  client_transport world (serverName c) = Some t →
  transport_send world = SendReturns →
  arrivals world = [Arrives m] →
  id m = Some (Date_now world) → error m = None →
  await_callToolDirectly world c toolName params = Done (Normal (result m)).
Proof.
  intros Ht Hs Ha Hid He. unfold await_callToolDirectly. rewrite Ht, Hs, Ha.
  cbn [callToolDirectly run foldl step onmessage handle].
  rewrite Hid, bool_decide_eq_true_2, He by done.
  rewrite promise_of_settle. unfold set_onmessage, clearTimeout. cbn [recoveries].
  rewrite lookup_disarm. cbn [recoveries]. by rewrite started_lookup.
Qed.
End Facts.
End ReplyMore.

Section ReplyExtras.
Import JS Registry Normalize NormalizeFacts Bypass CallTool ReplyMore.
Context {number : Type} `{JSNumber number}.

(** X5.  Whatever the backend answers, a value that [callTool] returns is
    an envelope: an object whose [content] is a non-empty array. *)
Theorem callTool_returns_envelopes (world : Backend number) (conns : Connections number)
    (toolName : string) (params v : Value number) :
  callTool world conns toolName params = Done (Normal v) →
  is_canonical v = true.
Proof.
  unfold callTool, dispatch.
  destruct (resolveTool conns toolName) as [[c actual]|e]; [|done].
  destruct (invoke world c actual params) as [[[early|result]|e]|] eqn:Hinv; try done.
  - intros [= <-]. revert Hinv. unfold invoke.
    destruct (client_callTool world (serverName c) actual params) as [r|err]; [done|].
    destruct (String.eqb (JSError.name err) "ZodError" && JSError.issues err); [|done].
    destruct (await_callToolDirectly world c actual params) as [[raw|d]|]; try done.
    by intros [= <-].
  - intros [= Hn]. by eapply normalize_gives_envelope.
Qed.

(** X6.  A reply that is neither an array nor an object becomes one text
    item: its printed form when it is truthy, and the notice that nothing
    came back when it is [undefined], [null], [false], zero, NaN or the
    empty string. *)
Theorem normalize_primitive (v : Value number) :
  (∀ items, v ≠ Array items) → (∀ props, v ≠ Object props) →
  normalize v = Normal (text_result (Str (
    if truthy v then ToString v else "도구 실행 완료 (응답 없음)"))).
Proof.
  intros Harr Hobj. destruct v as [| |b|n|s|items|props].
  - done.
  - done.
  - by destruct b.
  - unfold normalize, normalize_body. cbn. by destruct (number_is_falsy n).
  - by destruct s.
  - by destruct (Harr items).
  - by destruct (Hobj props).
Qed.

(** X7.  An array reply is never taken for an envelope or searched for
    text fields: the text is the pretty-printed array. *)
Theorem normalize_array (items : list (Value number)) :
  normalize (Array items) = Normal (text_result (JSON_stringify (Array items))).
Proof.
  unfold normalize, normalize_body.
  cbn [truthy negb get mbind Completion_bind is_envelope andb typeof].
  rewrite scan_array. cbn [mbind Completion_bind truthy JSString.is_empty negb]. done.
Qed.

(** X8.  An error of the client that is not a [ZodError] carrying issues
    is thrown on to the caller as it is; no recovery is tried. *)
Theorem callTool_rethrows_other_errors (world : Backend number)
    (conns : Connections number) (toolName : string) (params : Value number)
    (c : HamaClientConnection number) (actual : string) (error : JSError.t) :
  resolveTool conns toolName = Normal (c, actual) →
  client_callTool world (serverName c) actual params = Throw error →
  JSError.name error ≠ "ZodError" ∨ JSError.issues error = false →
  callTool world conns toolName params = Done (Throw error).
Proof.
  intros Hres Hcall Hother. unfold callTool, dispatch, invoke. rewrite Hres, Hcall.
  destruct Hother as [Hname|Hissues].
  - destruct (String.eqb_spec (JSError.name error) "ZodError"); done.
  - rewrite Hissues, andb_false_r. done.
Qed.

(** X9.  When the client rejects a reply with a [ZodError] and the backend
    answers the recovery's request without an error, [callTool] returns the
    normalization of that raw result. *)
Theorem callTool_normalizes_recovered_reply (world : Backend number)
    (conns : Connections number) (toolName : string) (params : Value number)
    (c : HamaClientConnection number) (actual : string) (error : JSError.t)
    (t : Transport number) (m : Message number) :
  resolveTool conns toolName = Normal (c, actual) →
  client_callTool world (serverName c) actual params = Throw error →
  JSError.name error = "ZodError" → JSError.issues error = true →
  client_transport world (serverName c) = Some t →
  transport_send world = SendReturns →
  arrivals world = [Arrives m] →
  Bypass.id m = Some (Date_now world) → Bypass.error m = None →
  callTool world conns toolName params = Done (normalize (Bypass.result m)).
Proof.
  intros Hres Hcall Hname Hissues Ht Hs Ha Hid He.
  unfold callTool, dispatch, invoke.
  by rewrite Hres, Hcall, Hname, Hissues, (await_reply world c actual params t m).
Qed.
End ReplyExtras.

(** ** The merged listing and the router *)
Module RoutingMore.
Import JSString JSStringFacts JSMapFacts JS Registry RegistryFacts.
Section Facts.
Context {number : Type} `{JSNumber number}.
Implicit Types (conns : Connections number) (c : HamaClientConnection number).

Lemma unify_cons {D} (caps : HamaClientConnection number → list D) (local : D → string)
    k c conns :
  unify caps local ((k, c) :: conns)
  = (if active c
     then List.map (λ d, {| entry := d; entry_serverName := k;
                            qualified := qualify k (local d) |}) (caps c)
     else []) ++ unify caps local conns.
Proof. reflexivity. Qed.

(** The listing of a registry is made of the listings of its parts, in
    their order. *)
Lemma unify_app {D} (caps : HamaClientConnection number → list D) (local : D → string)
    conns1 conns2 :
  unify caps local (conns1 ++ conns2) = unify caps local conns1 ++ unify caps local conns2.
Proof.
  induction conns1 as [|[k c] conns1 IH]; [done|].
  rewrite <-app_comm_cons, !unify_cons, IH. by rewrite <-app_assoc.
Qed.

Lemma unify_middle {D} (caps : HamaClientConnection number → list D)
    (local : D → string) conns1 k c conns2 :
  unify caps local (conns1 ++ (k, c) :: conns2)
  = unify caps local conns1
    ++ (if active c
        then List.map (λ d, {| entry := d; entry_serverName := k;
                               qualified := qualify k (local d) |}) (caps c)
        else [])
    ++ unify caps local conns2.
Proof. by rewrite unify_app, unify_cons. Qed.

(** The listing holds the capabilities of the active connections, each
    stamped with the key of its connection, and nothing else. *)
Lemma elem_of_unify {D} (caps : HamaClientConnection number → list D)
    (local : D → string) conns (u : Unified D) :
  u ∈ unify caps local conns ↔
  ∃ c, (entry_serverName u, c) ∈ conns ∧ active c = true ∧ entry u ∈ caps c ∧
       qualified u = qualify (entry_serverName u) (local (entry u)).
Proof.
  induction conns as [|[k c] conns IH].
  - split; [by intros ?%elem_of_nil|]. by intros (c & ?%elem_of_nil & _).
  - rewrite unify_cons, elem_of_app, IH. split.
    + intros [Hhere|(c' & Hin & Hrest)].
      * destruct (active c) eqn:Hact; [|by apply elem_of_nil in Hhere].
        apply list_elem_of_In, in_map_iff in Hhere as (d & <- & Hd%list_elem_of_In).
        exists c. cbn. split_and!; [left|done..].
      * exists c'. split; [by right|done].
    + intros (c' & [[= <- <-]|Hin]%elem_of_cons & Hact & Hd & Hq).
      * left. rewrite Hact. apply list_elem_of_In, in_map_iff.
        exists (entry u). split; [|by apply list_elem_of_In].
        destruct u as [d k' q]. cbn in *. by rewrite Hq.
      * right. exists c'. done.
Qed.

Lemma resolve_unavailable (defines : string → HamaClientConnection number → bool)
    notFound conns server local :
  includes ":" server = false →
  JSMap.get server conns = None
  ∨ (∃ c, JSMap.get server conns = Some c ∧ active c = false) →
  resolve defines notFound conns (qualify server local)
  = Throw (JSError.Error ("서버에 연결할 수 없습니다: " +:+ server)).
Proof.
  intros Hs Hgone. unfold resolve.
  rewrite includes_qualify, destructure2_qualify by done.
  cbn [mbind Completion_bind].
  destruct Hgone as [->|(c & -> & ->)]; done.
Qed.
End Facts.
End RoutingMore.

Section RoutingExtras.
Import JSString JSMapFacts JS Registry RegistryFacts RoutingMore CallTool.
Context {number : Type} `{JSNumber number}.

(** X10.  Each of the three merged listings is the concatenation, in
    registration order, of what the connections contribute: an active
    connection contributes its cached list in its own order, every
    descriptor once for each time it stands there, stamped with the key of
    the connection and the qualified name made of that key, the separator
    and the local name; an inactive connection contributes nothing.
    Nothing is merged or dropped, so equal local names of different
    backends are all kept. *)
Theorem unified_listings_exact (before after : Connections number) (k : string)
    (c : HamaClientConnection number) :
  getUnifiedTools (number:=number) [] = [] ∧
  getUnifiedPrompts (number:=number) [] = [] ∧
  getUnifiedResources (number:=number) [] = [] ∧
  getUnifiedTools (before ++ (k, c) :: after)
  = getUnifiedTools before
    ++ (if active c
        then List.map (λ d, {| entry := d; entry_serverName := k;
                               qualified := qualify k (name d) |}) (tools c)
        else [])
    ++ getUnifiedTools after ∧
  getUnifiedPrompts (before ++ (k, c) :: after)
  = getUnifiedPrompts before
    ++ (if active c
        then List.map (λ d, {| entry := d; entry_serverName := k;
                               qualified := qualify k (name d) |}) (prompts c)
        else [])
    ++ getUnifiedPrompts after ∧
  getUnifiedResources (before ++ (k, c) :: after)
  = getUnifiedResources before
    ++ (if active c
        then List.map (λ d, {| entry := d; entry_serverName := k;
                               qualified := qualify k (uri d) |}) (resources c)
        else [])
    ++ getUnifiedResources after.
Proof.
  split_and!; try reflexivity; apply unify_middle.
Qed.

(** X11.  In a registry keyed by server name, the qualified name of every
    listed tool or prompt whose server name and local name hold no
    separator leads the router back to the connection that lists it, with
    the local name unchanged. *)
Theorem listed_names_resolve (conns : Connections number) :
  keyed_by_name conns →
  (∀ u, u ∈ getUnifiedTools conns →
     includes ":" (entry_serverName u) = false → includes ":" (name (entry u)) = false →
     ∃ c, resolveTool conns (qualified u) = Normal (c, name (entry u)) ∧
          serverName c = entry_serverName u ∧ entry u ∈ tools c) ∧
  (∀ u, u ∈ getUnifiedPrompts conns →
     includes ":" (entry_serverName u) = false → includes ":" (name (entry u)) = false →
     ∃ c, resolvePrompt conns (qualified u) = Normal (c, name (entry u)) ∧
          serverName c = entry_serverName u ∧ entry u ∈ prompts c).
Proof.
  intros [Hnd Hkey]. split.
  - intros u (c & Hin & Hact & Hd & Hq)%elem_of_unify Hs Hl. exists c.
    rewrite Hq. unfold resolveTool.
    rewrite (resolve_qualified _ _ _ _ _ c), first_piece_whole; try done.
    + split; [done|]. split; [by apply Hkey|done].
    + by apply elem_get.
  - intros u (c & Hin & Hact & Hd & Hq)%elem_of_unify Hs Hl. exists c.
    rewrite Hq. unfold resolvePrompt.
    rewrite (resolve_qualified _ _ _ _ _ c), first_piece_whole; try done.
    + split; [done|]. split; [by apply Hkey|done].
    + by apply elem_get.
Qed.

(** X12.  A qualified name whose server is not registered, or registered
    but inactive, is refused with the cannot-connect error, for tools,
    prompts and resources alike, whatever the local name and whatever the
    other connections list; no backend is called. *)
Theorem unknown_or_inactive_server_is_refused (world : Backend number)
    (client_getPrompt : string → string → Value number → Completion (Value number))
    (client_readResource : string → string → Completion (Value number))
    (conns : Connections number) (server local : string) (params : Value number) :
  includes ":" server = false →
  JSMap.get server conns = None
  ∨ (∃ c, JSMap.get server conns = Some c ∧ active c = false) →
  let refused := JSError.Error ("서버에 연결할 수 없습니다: " +:+ server) in
  callTool world conns (qualify server local) params = Done (Throw refused) ∧
  getPrompt client_getPrompt conns (qualify server local) params = Throw refused ∧
  readResource client_readResource conns (qualify server local) = Throw refused.
Proof.
  intros Hs Hgone refused.
  unfold callTool, getPrompt, readResource, resolveTool, resolvePrompt, resolveResource.
  by rewrite !resolve_unavailable.
Qed.

(** X13.  For a prompt name or resource uri without a separator, the first
    active connection in registration order that lists it is asked, with
    the name as given, and its answer is returned as it comes, without
    normalization; when no active connection lists it the call is refused
    with the not-found error of its category. *)
Theorem unqualified_prompts_and_resources
    (client_getPrompt : string → string → Value number → Completion (Value number))
    (client_readResource : string → string → Completion (Value number))
    (conns : Connections number) (given : string) (params : Value number) :
  includes ":" given = false → keyed_by_name conns →
  (∀ pre k c post,
     conns = pre ++ (k, c) :: post →
     (∀ k' c', (k', c') ∈ pre → active c' && some_named given (prompts c') = false) →
     active c = true → some_named given (prompts c) = true →
     getPrompt client_getPrompt conns given params = client_getPrompt k given params) ∧
  (∀ pre k c post,
     conns = pre ++ (k, c) :: post →
     (∀ k' c', (k', c') ∈ pre → active c' && some_uri given (resources c') = false) →
     active c = true → some_uri given (resources c) = true →
     readResource client_readResource conns given = client_readResource k given) ∧
  ((∀ k c, (k, c) ∈ conns → active c && some_named given (prompts c) = false) →
   getPrompt client_getPrompt conns given params
   = Throw (JSError.Error ("프롬프트를 찾을 수 없습니다: " +:+ given))) ∧
  ((∀ k c, (k, c) ∈ conns → active c && some_uri given (resources c) = false) →
   readResource client_readResource conns given
   = Throw (JSError.Error ("리소스를 찾을 수 없습니다: " +:+ given))).
Proof.
  intros Hg Hkeyed. split_and!.
  - intros pre k c post Hconns Hpre Hact Hdef. unfold getPrompt, resolvePrompt.
    rewrite (resolve_first_match _ _ conns given pre k c post) by done.
    cbn [mbind Completion_bind]. destruct Hkeyed as [_ Hkey].
    rewrite (Hkey k c); [done|]. rewrite Hconns. apply elem_of_app. right. left.
  - intros pre k c post Hconns Hpre Hact Hdef. unfold readResource, resolveResource.
    rewrite (resolve_first_match _ _ conns given pre k c post) by done.
    cbn [mbind Completion_bind]. destruct Hkeyed as [_ Hkey].
    rewrite (Hkey k c); [done|]. rewrite Hconns. apply elem_of_app. right. left.
  - intros Hnone. unfold getPrompt, resolvePrompt. by rewrite resolve_not_found.
  - intros Hnone. unfold readResource, resolveResource. by rewrite resolve_not_found.
Qed.
End RoutingExtras.

(** ** The recovery's interceptor *)
Module BypassMore.
Import JS Bypass BypassFacts.
Section Facts.
Context {number : Type} `{JSNumber number}.
Implicit Types (t : Transport number) (h : Handler) (m : Message number).

Lemma lookup_settle call p t :
  recoveries (settle call p t) !! call
  = (λ r, {| timeout := timeout r;
             promise := match promise r with Pending => p | settled => settled end |})
    <$> recoveries t !! call.
Proof. unfold settle, alter_recovery. cbn [recoveries]. apply list_lookup_alter_eq. Qed.

(** Changing a recovery in a way that keeps settled promises keeps every
    settled promise of the transport. *)
Lemma promise_of_alter call call' (f : Recovery number → Recovery number) t :
  (∀ r, promise r ≠ Pending → promise (f r) = promise r) →
  promise_of call t ≠ Pending →
  promise_of call (alter_recovery call' f t) = promise_of call t.
Proof.
  intros Hf. unfold promise_of, alter_recovery. cbn [recoveries].
  destruct (decide (call' = call)) as [->|Hne].
  - rewrite list_lookup_alter_eq. destruct (recoveries t !! call) as [r|]; [|done].
    cbn. apply Hf.
  - by rewrite list_lookup_alter_ne.
Qed.

Lemma promise_of_disarm call call' t :
  promise_of call t ≠ Pending → promise_of call (disarm call' t) = promise_of call t.
Proof. apply promise_of_alter. done. Qed.

Lemma promise_of_settle_other call call' p t :
  promise_of call t ≠ Pending → promise_of call (settle call' p t) = promise_of call t.
Proof. apply promise_of_alter. intros r Hr. cbn. by destruct (promise r). Qed.

Lemma promise_of_handle call h m t :
  promise_of call t ≠ Pending → promise_of call (handle h m t) = promise_of call t.
Proof.
  revert t. induction h as [| |c rid h IH]; intros t Hp; cbn [handle]; [done..|].
  destruct (bool_decide (id m = Some rid)).
  - assert (Hd : promise_of call (set_onmessage h (clearTimeout c t)) = promise_of call t).
    { unfold clearTimeout. by rewrite <-(promise_of_disarm call c t). }
    destruct (error m); rewrite promise_of_settle_other; rewrite ?Hd; done.
  - destruct h; [done|by apply IH..].
Qed.

Lemma promise_of_step call ev t :
  promise_of call t ≠ Pending → promise_of call (step t ev) = promise_of call t.
Proof.
  intros Hp. destruct ev as [m|c]; cbn [step].
  - by apply promise_of_handle.
  - destruct (recoveries t !! c) as [r|]; [|done]. destruct (timeout r); [|done].
    rewrite promise_of_settle_other; rewrite promise_of_disarm; done.
Qed.
End Facts.
End BypassMore.

Section BypassExtras.
Import JS Bypass BypassFacts BypassMore.
Context {number : Type} `{JSNumber number}.

(** X14.  While a recovery's interceptor is installed, a message whose id
    is not the recovery's is handled exactly as the replaced handler would
    have handled it: with the client's handler underneath, it is delivered
    to that handler and nothing else changes. *)
Theorem unrelated_message_passes_through (t : Transport number) (call : nat)
    (requestId : Z) (h : Handler) (m : Message number) :
  onmessage t = Interceptor call requestId h →
  id m ≠ Some requestId →
  step t (Arrives m) = handle h m t ∧
  (h = ClientHandler →
   step t (Arrives m)
   = {| onmessage := onmessage t; sent := sent t;
        delivered := delivered t ++ [m]; recoveries := recoveries t |}).
Proof.
  intros Ho Hid. cbn [step]. rewrite Ho. cbn [handle].
  rewrite bool_decide_eq_false_2 by done.
  split; [by destruct h|]. intros ->. cbn [handle]. by rewrite Ho.
Qed.

(** X15.  A reply without error that carries the id of a pending recovery
    fulfils the recovery's promise with the reply's result, puts the
    replaced handler back, is not delivered to that handler, and disarms the
    timer: when the 30 seconds have passed nothing happens any more. *)
Theorem matching_reply_fulfils (t : Transport number) (call : nat) (requestId : Z)
    (h : Handler) (r : Recovery number) (m : Message number) :
  onmessage t = Interceptor call requestId h →
  recoveries t !! call = Some r → promise r = Pending →
  id m = Some requestId → error m = None →
  let t' := step t (Arrives m) in
  promise_of call t' = Resolved (result m) ∧
  onmessage t' = h ∧
  delivered t' = delivered t ∧
  step t' (TimerFires call) = t'.
Proof.
  intros Ho Hr Hp Hid He t'. subst t'. cbn [step]. rewrite Ho. cbn [handle].
  rewrite bool_decide_eq_true_2, He by done. split_and!.
  - rewrite promise_of_settle. unfold set_onmessage, clearTimeout. cbn [recoveries].
    rewrite lookup_disarm, Hr. cbn. by rewrite Hp.
  - done.
  - done.
  - rewrite lookup_settle. unfold set_onmessage, clearTimeout. cbn [recoveries].
    rewrite lookup_disarm, Hr. done.
Qed.

(** X16.  A promise of a recovery that is settled stays as it is: no
    message, no timer and no later recovery on the same transport changes
    it.  In particular a reply that arrives after the timeout does not turn
    the rejection into a result. *)
Theorem settled_promise_is_final (t : Transport number) (call : nat) :
  promise_of call t ≠ Pending →
  (∀ evs, promise_of call (run evs t) = promise_of call t) ∧
  (∀ now send toolName params,
     promise_of call (callToolDirectly now send toolName params t).1 = promise_of call t).
Proof.
  intros Hp. split.
  - intros evs. revert t Hp. induction evs as [|ev evs IH]; intros t Hp; [done|].
    cbn [run foldl]. fold (run evs (step t ev)).
    rewrite IH; rewrite promise_of_step; done.
  - intros now send toolName params.
    assert (Hlt : call < length (recoveries t)).
    { unfold promise_of in Hp. destruct (recoveries t !! call) eqn:Hl; [|done].
      by eapply lookup_lt_Some. }
    assert (Hstart : ∀ h s d,
      promise_of call {| onmessage := h; sent := s; delivered := d;
        recoveries := recoveries t ++ [{| timeout := true; promise := Pending |}] |}
      = promise_of call t).
    { intros h s d. unfold promise_of. cbn [recoveries]. by rewrite lookup_app_l. }
    destruct send as [| |e]; cbn [callToolDirectly fst].
    + rewrite promise_of_settle_other; rewrite Hstart; done.
    + unfold promise_of. cbn [recoveries]. by rewrite lookup_app_l.
    + match goal with |- context [clearTimeout ?c ?t1] =>
        assert (Hinner : promise_of call (set_onmessage (onmessage t) (clearTimeout c t1))
                         = promise_of call t)
      end.
      { change (promise_of call (set_onmessage ?h ?x)) with (promise_of call x).
        unfold clearTimeout. rewrite promise_of_disarm; by rewrite Hstart. }
      rewrite promise_of_settle_other; by rewrite Hinner.
Qed.

(** X17.  When [transport.send] throws, the recovery is rejected with the
    thrown error, the replaced handler is back in place, nothing was sent,
    and the timer is disarmed.  When the transport has no [send], the
    recovery is rejected as well, but the interceptor stays installed. *)
Theorem failed_send_rejects (t : Transport number) (now : Z) (toolName : string)
    (params : Value number) (sendError : JSError.t) :
  let thrown := (callToolDirectly now (SendThrows sendError) toolName params t).1 in
  let missing := (callToolDirectly now SendMissing toolName params t).1 in
  let call := length (recoveries t) in
  promise_of call thrown = Rejected sendError ∧
  onmessage thrown = onmessage t ∧
  sent thrown = sent t ∧
  step thrown (TimerFires call) = thrown ∧
  promise_of call missing = Rejected (JSError.Error "전송 메서드를 사용할 수 없습니다") ∧
  onmessage missing = Interceptor call now (onmessage t) ∧
  sent missing = sent t.
Proof.
  intros thrown missing call. subst thrown missing call.
  cbn [callToolDirectly fst]. split_and!; try done.
  - rewrite promise_of_settle. unfold set_onmessage, clearTimeout. cbn [recoveries].
    rewrite lookup_disarm. cbn [recoveries]. by rewrite started_lookup.
  - cbn [step]. rewrite lookup_settle. unfold set_onmessage, clearTimeout.
    cbn [recoveries]. rewrite lookup_disarm. cbn [recoveries].
    by rewrite started_lookup.
  - rewrite promise_of_settle. cbn [recoveries]. by rewrite started_lookup.
Qed.

(** X23.  Two recoveries in flight on one transport race on the handler
    slot: when the reply to the older one arrives, its interceptor puts
    back the handler it had replaced and so removes the newer recovery's
    interceptor as well.  The older recovery is fulfilled, the newer one is
    left pending, and with the client's handler underneath the reply to the
    newer recovery is then delivered to that handler and never fulfils
    it. *)
Theorem older_reply_uninstalls_newer_interceptor (t : Transport number)
    (older newer : nat) (olderId newerId : Z) (h : Handler)
    (r : Recovery number) (m1 m2 : Message number) :
  onmessage t = Interceptor newer newerId (Interceptor older olderId h) →
  older ≠ newer → olderId ≠ newerId →
  recoveries t !! older = Some r → promise r = Pending →
  id m1 = Some olderId → error m1 = None →
  let t1 := step t (Arrives m1) in
  onmessage t1 = h ∧
  promise_of older t1 = Resolved (result m1) ∧
  promise_of newer t1 = promise_of newer t ∧
  (h = ClientHandler →
   promise_of newer (step t1 (Arrives m2)) = promise_of newer t ∧
   delivered (step t1 (Arrives m2)) = delivered t ++ [m2]).
Proof.
  intros Ho Hcalls Hids Hr Hp Hid He t1. subst t1.
  cbn [step]. rewrite Ho. cbn [handle].
  rewrite Hid, bool_decide_eq_false_2 by congruence.
  rewrite bool_decide_eq_true_2, He by done.
  assert (Hnewer : ∀ p x, promise_of newer
            (settle older p (set_onmessage x (clearTimeout older t)))
            = promise_of newer t).
  { intros p x. unfold promise_of, settle, set_onmessage, clearTimeout, disarm,
      alter_recovery. cbn [recoveries].
    by rewrite !list_lookup_alter_ne. }
  split_and!.
  - done.
  - rewrite promise_of_settle. unfold set_onmessage, clearTimeout. cbn [recoveries].
    rewrite lookup_disarm, Hr. cbn. by rewrite Hp.
  - apply Hnewer.
  - intros ->. cbn [step onmessage settle alter_recovery set_onmessage handle].
    split; [|done].
    etrans; [|apply (Hnewer (Resolved (result m1)) ClientHandler)]. reflexivity.
Qed.
End BypassExtras.

(** ** Refreshing a connection, and the status *)
Module RegistryMore.
Import JSMapFacts JS Registry Connect ConnectFacts Refresh Status.
Section Facts.
Context {number : Type} `{JSNumber number}.
Implicit Types (conns : Connections number).

(** [set] on a key that is not there adds the binding at the end. *)
Lemma set_absent {V} (m : JSMap.t V) k v :
  JSMap.get k m = None → JSMap.set k v m = m ++ [(k, v)].
Proof.
  induction m as [|[k' v'] m IH]; cbn; [done|].
  destruct (String.eqb k' k); [done|]. intros Hm. by rewrite IH.
Qed.

(** Starting from a registry that holds none of the names, the attempts
    register the backends that connect, in the order in which they
    finish. *)
Lemma attempts_register launch (finished : list (string * ServerConfig)) :
  NoDup finished.*1 → ∀ conns,
  (∀ k, k ∈ finished.*1 → JSMap.get k conns = None) →
  foldl (attempt launch) conns finished
  = conns ++ ((λ e, (e.1, registered launch e.1 e.2))
              <$> filter (connects launch) finished).
Proof.
  induction finished as [|[k sc] finished IH]; intros Hnd conns Hfresh.
  { cbn. by rewrite app_nil_r. }
  rewrite fmap_cons in Hnd. apply NoDup_cons in Hnd as [Hk Hnd].
  cbn [foldl].
  assert (Hget : JSMap.get k conns = None) by (apply Hfresh; left).
  unfold attempt at 2, connectToServer. cbn [fst snd].
  destruct (connect (launch k sc)) as [u|e] eqn:Hconn.
  - rewrite filter_cons_True by (by exists u).
    cbn. rewrite set_absent by done. rewrite IH; [|done|].
    + by rewrite <-app_assoc.
    + intros k' Hk'. apply get_None_keys. unfold JSMap.keys.
      rewrite fmap_app, elem_of_app. intros [Hin|Hin].
      * apply (get_None_keys conns k'); [|done]. apply Hfresh. by right.
      * apply list_elem_of_singleton in Hin. cbn in Hin. by subst k'.
  - rewrite filter_cons_False.
    2:{ intros [u Hu]. cbn [fst snd] in Hu. congruence. }
    cbn. apply IH; [done|]. intros k' Hk'. apply Hfresh. by right.
Qed.

(** The length of a listing is the number of capabilities of the active
    connections. *)
Lemma length_unify {D} (caps : HamaClientConnection number → list D)
    (local : D → string) conns :
  length (unify caps local conns)
  = sum_list_with (λ p, if active p.2 then length (caps p.2) else 0) conns.
Proof.
  induction conns as [|[k c] conns IH]; [done|].
  rewrite RoutingMore.unify_cons, length_app, IH. cbn [sum_list_with snd].
  destruct (active c); [|done]. by rewrite length_map.
Qed.
End Facts.
End RegistryMore.

Section RegistryExtras.
Import JSMapFacts JS Registry Connect ConnectFacts Refresh Status RegistryMore.
Context {number : Type} `{JSNumber number}.

(** X18.  [refreshServerData] on a name that is not registered changes
    nothing.  On a registered name it replaces the three cached lists by
    what the listings now answer, a failed listing leaving that list
    empty; the connection keeps its name, its active flag and its place in
    the registration order, and every other connection is untouched. *)
Theorem refreshServerData_replaces_lists (listings : Listings number) (name : string)
    (conns : Connections number) :
  let refreshed := refreshServerData listings name conns in
  JSMap.keys refreshed = JSMap.keys conns ∧
  JSMap.get name refreshed
  = (λ c, {| serverName := serverName c; active := active c;
             tools := or_empty (tools_listed listings);
             prompts := or_empty (prompts_listed listings);
             resources := or_empty (resources_listed listings) |})
    <$> JSMap.get name conns ∧
  (∀ k, k ≠ name → JSMap.get k refreshed = JSMap.get k conns) ∧
  (keyed_by_name conns → keyed_by_name refreshed).
Proof.
  intros refreshed. subst refreshed. unfold refreshServerData.
  destruct (JSMap.get name conns) as [c|] eqn:Hget; [|done].
  split_and!.
  - rewrite keys_set. unfold JSMap.has. by rewrite Hget.
  - cbn. apply get_set_eq.
  - intros k Hk. apply get_set_ne. congruence.
  - intros [Hnd Hkey]. split; [by apply NoDup_keys_set|].
    intros k c' [[= -> ->]|Hin]%elem_of_set; [|by apply Hkey].
    cbn. apply Hkey. by apply get_Some_elem.
Qed.

(** X19.  After [connectAllServers] on an empty registry, the status
    reports the number of configured backends as [totalServers], the
    backends whose [connect] succeeded, in the order in which they
    finished, as [connectedServers], their number as [activeConnections],
    and the number of tools they listed as [totalTools]. *)
Theorem status_after_connectAll (launch : string → ServerConfig → Launch number)
    (config : HamaServerConfig) (finished : list (string * ServerConfig))
    (sessions : Sessions.State) :
  NoDup (hamaServers config).*1 →
  finished ≡ₚ hamaServers config →
  ∃ conns,
    connectAllServers launch (Some config) finished JSMap.empty = Normal conns ∧
    let status := getConnectionStatus (Some config) conns sessions in
    totalServers status = length (hamaServers config) ∧
    connectedServers status = (filter (connects launch) finished).*1 ∧
    activeConnections status = length (filter (connects launch) (hamaServers config)) ∧
    activeConnections status ≤ totalServers status ∧
    totalTools status
    = sum_list_with (λ e, length (or_empty (listTools (launch e.1 e.2))))
        (filter (connects launch) finished).
Proof.
  intros Hnd Hperm. eexists. split; [done|].
  assert (Hnd' : NoDup finished.*1) by by rewrite Hperm.
  rewrite attempts_register; [|done|done]. cbn [app JSMap.empty].
  unfold getConnectionStatus.
  cbn [totalServers connectedServers activeConnections totalTools].
  assert (Hlen : JSMap.size ((λ e : string * ServerConfig,
                    (e.1, registered launch e.1 e.2))
                  <$> filter (connects launch) finished)
                 = length (filter (connects launch) (hamaServers config))).
  { unfold JSMap.size. by rewrite length_fmap, Hperm. }
  split_and!.
  - done.
  - unfold JSMap.keys. rewrite <-list_fmap_compose. done.
  - done.
  - rewrite Hlen. apply length_filter.
  - unfold getUnifiedTools. rewrite length_unify.
    generalize (filter (connects launch) finished). intros l.
    induction l as [|e l IH]; [done|]. rewrite fmap_cons. cbn. by rewrite IH.
Qed.
End RegistryExtras.

(** ** Sessions and the middlewares *)
Section SessionExtras.
Import Sessions SessionsFacts Middleware.

(** X20.  Closing a session removes that session from its registry and no
    other: after the SSE close handler the SSE registry is the old one
    without the session and the stream registry is unchanged, and the other
    way round for the stream flavor.  A session that is registered and then
    closed leaves the registry as it was before. *)
Theorem close_removes_only_that_session (st : State) (sessionId : string)
    (server : Server) (transport : TransportRef) (outcome : Completion ()) :
  sessionId ≠ "" →
  (∃ st', sse_on_close sessionId server outcome st = Normal st' ∧
          activeSSETransports st' = delete sessionId (activeSSETransports st) ∧
          activeStreamTransports st' = activeStreamTransports st) ∧
  (∃ st', stream_onclose (Some sessionId) server outcome st = Normal st' ∧
          activeStreamTransports st' = delete sessionId (activeStreamTransports st) ∧
          activeSSETransports st' = activeSSETransports st) ∧
  (activeSSETransports st !! sessionId = None →
   ∃ st', sse_on_close sessionId server outcome (sse_register sessionId transport st)
          = Normal st' ∧
          activeSSETransports st' = activeSSETransports st) ∧
  (activeStreamTransports st !! sessionId = None →
   ∃ st', stream_onclose (Some sessionId) server outcome
            (stream_register sessionId server transport st) = Normal st' ∧
          activeStreamTransports st' = activeStreamTransports st).
Proof.
  intros Hsid.
  assert (Hstream : ∀ s, ∃ st',
    stream_onclose (Some sessionId) server outcome s = Normal st' ∧
    activeStreamTransports st' = delete sessionId (activeStreamTransports s) ∧
    activeSSETransports st' = activeSSETransports s).
  { intros s. unfold stream_onclose.
    rewrite (JSStringFacts.is_empty_false _ Hsid). cbn [negb andb].
    destruct (activeStreamTransports s !! sessionId) as [x|] eqn:Hreg.
    - rewrite bool_decide_eq_true_2 by eauto.
      destruct (close_server_returns server outcome s) as (st' & -> & Hs & Ht & _).
      eexists. split; [reflexivity|]. cbn. by rewrite Hs, Ht.
    - rewrite bool_decide_eq_false_2 by (by intros [? [=]]).
      exists s. by rewrite delete_id. }
  split_and!.
  - destruct (sse_on_close_returns sessionId server outcome st) as (st' & ? & ? & ? & _).
    by exists st'.
  - apply Hstream.
  - intros Hfresh.
    destruct (sse_on_close_returns sessionId server outcome
                (sse_register sessionId transport st)) as (st' & ? & Hs & _).
    exists st'. split; [done|]. rewrite Hs. cbn. by apply delete_insert_id.
  - intros Hfresh.
    destruct (Hstream (stream_register sessionId server transport st))
      as (st' & ? & Hs & _).
    exists st'. split; [done|]. rewrite Hs. cbn. by apply delete_insert_id.
Qed.
End SessionExtras.

Section MiddlewareExtras.
Import JSString Registry Sessions Middleware.
Context {number : Type} `{JSNumber number}.

(** X21.  The stream middleware hands a request to a session's transport
    only on the path [/hama], when the request carries the id of a
    registered session.  It builds a new endpoint only for a POST without
    session id whose body is an initialize request.  A POST, GET or DELETE
    on [/hama] that carries an id no session is registered under is
    answered with status 400, also when the POST body is an initialize
    request. *)
Theorem stream_middleware_routing (req : Request) (sessions : State)
    (conns : Connections number) (handleRequest : Completion ()) :
  (∀ sessionId,
     stream_middleware req sessions conns handleRequest = Handled sessionId →
     path req = "/hama" ∧ given (mcp_session_id req) = Some sessionId ∧
     is_Some (activeStreamTransports sessions !! sessionId)) ∧
  (∀ endpoint,
     stream_middleware req sessions conns handleRequest = Created endpoint →
     path req = "/hama" ∧ method req = "POST" ∧ given (mcp_session_id req) = None ∧
     ∃ serverName, initialize req = Some serverName ∧
                   createServer conns (or_unified serverName) = Normal endpoint) ∧
  (∀ sessionId,
     path req = "/hama" → given (mcp_session_id req) = Some sessionId →
     activeStreamTransports sessions !! sessionId = None →
     (method req = "POST" →
      stream_middleware req sessions conns handleRequest
      = Respond (JsonError 400 (-32000) "Bad Request: No valid session ID provided")) ∧
     (method req = "GET" ∨ method req = "DELETE" →
      stream_middleware req sessions conns handleRequest
      = Respond (EndWith 400 "No active transport"))).
Proof.
  unfold stream_middleware. split_and!.
  - intros sessionId.
    destruct (String.eqb_spec (path req) "/hama") as [Hp|]; cbn [negb]; [|done].
    destruct (String.eqb (method req) "POST").
    { destruct (given (mcp_session_id req)) as [sid|].
      - destruct (activeStreamTransports sessions !! sid) eqn:Hreg; [|done].
        destruct handleRequest; [|done]. intros [= <-]. eauto.
      - destruct (initialize req); [|done].
        destruct (createServer _ _); [|done]. by destruct handleRequest. }
    destruct (String.eqb (method req) "GET").
    { destruct (given (mcp_session_id req)) as [sid|]; [|done].
      destruct (activeStreamTransports sessions !! sid) eqn:Hreg; [|done].
      destruct handleRequest; [|done]. intros [= <-]. eauto. }
    destruct (String.eqb (method req) "DELETE"); [|done].
    destruct (given (mcp_session_id req)) as [sid|]; [|done].
    destruct (activeStreamTransports sessions !! sid) eqn:Hreg; [|done].
    destruct handleRequest; [|done]. intros [= <-]. eauto.
  - intros endpoint.
    destruct (String.eqb_spec (path req) "/hama") as [Hp|]; cbn [negb]; [|done].
    destruct (String.eqb_spec (method req) "POST") as [Hm|].
    { destruct (given (mcp_session_id req)) as [sid|].
      - destruct (activeStreamTransports sessions !! sid); [|done].
        by destruct handleRequest.
      - destruct (initialize req) as [n|]; [|done].
        destruct (createServer conns (or_unified n)) as [e|] eqn:Hc; [|done].
        destruct handleRequest; [|done]. intros [= <-]. eauto 10. }
    destruct (String.eqb (method req) "GET").
    { destruct (given (mcp_session_id req)) as [sid|]; [|done].
      destruct (activeStreamTransports sessions !! sid); [|done].
      by destruct handleRequest. }
    destruct (String.eqb (method req) "DELETE"); [|done].
    destruct (given (mcp_session_id req)) as [sid|]; [|done].
    destruct (activeStreamTransports sessions !! sid); [|done].
    by destruct handleRequest.
  - intros sessionId -> -> ->. cbn [negb String.eqb]. split.
    + intros ->. done.
    + intros [-> | ->]; done.
Qed.

(** X22.  On the SSE message channel a POST under [/messages] reaches a
    transport only when its [sessionId] query names a registered SSE
    session; without a session id it is answered 400 "No sessionId", with
    an id that is not registered 400 "No active transport". *)
Theorem sse_message_routing (req : Request) (sessions : State)
    (handlePostMessage : Completion ()) :
  (∀ sessionId,
     sse_middleware req sessions handlePostMessage = Other (Handled sessionId) →
     method req = "POST" ∧ startsWith "/messages" (path req) = true ∧
     given (query_sessionId req) = Some sessionId ∧
     is_Some (activeSSETransports sessions !! sessionId)) ∧
  (method req = "POST" → startsWith "/messages" (path req) = true →
   (given (query_sessionId req) = None →
    sse_middleware req sessions handlePostMessage
    = Other (Respond (EndWith 400 "No sessionId"))) ∧
   (∀ sessionId, given (query_sessionId req) = Some sessionId →
      activeSSETransports sessions !! sessionId = None →
      sse_middleware req sessions handlePostMessage
      = Other (Respond (EndWith 400 "No active transport")))).
Proof.
  unfold sse_middleware. split.
  - intros sessionId.
    destruct (String.eqb (method req) "GET" && String.eqb (path req) "/sse"); [done|].
    destruct (String.eqb_spec (method req) "POST") as [Hm|]; cbn [andb]; [|done].
    destruct (startsWith "/messages" (path req)) eqn:Hp; [|done].
    destruct (given (query_sessionId req)) as [sid|]; [|done].
    destruct (activeSSETransports sessions !! sid) eqn:Hreg; [|done].
    destruct handlePostMessage; [|done]. intros [= <-]. eauto.
  - intros -> ->. cbn [String.eqb andb]. split.
    + by intros ->.
    + by intros sessionId -> ->.
Qed.
End MiddlewareExtras.

(** ** Instances of the further properties *)
Section ExtrasWitnesses.
Import JS Registry Normalize Bypass CallTool Connect ConnectFacts Refresh Status
  Sessions Middleware.
Import RoutingExamples RecoveryExamples ConnectExamples SessionsExamples MoreExamples.

Lemma both_keyed : keyed_by_name both.
Proof.
  split.
  - refine (bool_decide_unpack _ _). vm_compute. exact I.
  - intros k c Hin. repeat (apply elem_of_cons in Hin as [[= -> ->]|Hin]; [done|]).
    by apply elem_of_nil in Hin.
Qed.

Lemma prompting_keyed : keyed_by_name prompting.
Proof.
  split.
  - refine (bool_decide_unpack _ _). vm_compute. exact I.
  - intros k c Hin. repeat (apply elem_of_cons in Hin as [[= -> ->]|Hin]; [done|]).
    by apply elem_of_nil in Hin.
Qed.

Lemma callTool_returns_envelopes_witness :
  is_canonical (text_result (Str "serverA/toolX") : Value Z) = true.
Proof.
  apply (callTool_returns_envelopes echo both "serverA:toolX" (Object [])).
  reflexivity.
Defined.

Lemma normalize_primitive_witness :
  normalize (Number 0%Z) = Normal (text_result (Str "도구 실행 완료 (응답 없음)")).
Proof.
  change (Str "도구 실행 완료 (응답 없음)")
    with (Str (if truthy (Number 0%Z) then ToString (Number 0%Z)
               else "도구 실행 완료 (응답 없음)") : Value Z).
  apply (normalize_primitive (Number 0%Z)); discriminate.
Defined.

Lemma callTool_rethrows_other_errors_witness :
  callTool down both "serverA:toolX" (Object [])
  = Done (Throw (JSError.Error "Connection closed")).
Proof.
  apply (callTool_rethrows_other_errors down both "serverA:toolX" (Object [])
           serverA "toolX"); [reflexivity|reflexivity|].
  left. discriminate.
Defined.

Lemma callTool_normalizes_recovered_reply_witness :
  callTool answering both "serverA:toolX" (Object [])
  = Done (normalize (Object [("message", Str "hello")])).
Proof.
  apply (callTool_normalizes_recovered_reply answering both "serverA:toolX" (Object [])
           serverA "toolX" zod connected recovered); reflexivity.
Defined.

Lemma listed_names_resolve_witness :
  ∃ c, resolveTool both "serverB:toolY" = Normal (c, "toolY") ∧
       serverName c = "serverB" ∧ tool "toolY" ∈ tools c.
Proof.
  apply (proj1 (listed_names_resolve both both_keyed)
           {| entry := tool "toolY"; entry_serverName := "serverB";
              qualified := "serverB:toolY" |}); [|reflexivity|reflexivity].
  vm_compute. left.
Defined.

Lemma unknown_or_inactive_server_is_refused_witness :
  callTool echo prompting (qualify "notes" "anything") (Object [])
  = Done (Throw (JSError.Error "서버에 연결할 수 없습니다: notes")) ∧
  getPrompt naming prompting (qualify "notes" "anything") (Object [])
  = Throw (JSError.Error "서버에 연결할 수 없습니다: notes") ∧
  readResource reading prompting (qualify "notes" "anything")
  = Throw (JSError.Error "서버에 연결할 수 없습니다: notes").
Proof.
  apply (unknown_or_inactive_server_is_refused echo naming reading prompting
           "notes" "anything" (Object [])); [reflexivity|].
  right. exists notes. split; reflexivity.
Defined.

Lemma unqualified_prompts_and_resources_witness :
  getPrompt naming prompting "summarize" (Object [])
  = naming "docs" "summarize" (Object []).
Proof.
  apply (proj1 (unqualified_prompts_and_resources naming reading prompting "summarize"
                  (Object []) eq_refl prompting_keyed)
           [("notes", notes)] "docs" docs []); [reflexivity| |reflexivity|reflexivity].
  intros k' c' Hin. apply list_elem_of_singleton in Hin as [= -> ->]. reflexivity.
Defined.

Lemma unrelated_message_passes_through_witness :
  step in_flight (Arrives ordinary) = handle ClientHandler ordinary in_flight ∧
  (ClientHandler = ClientHandler →
   step in_flight (Arrives ordinary)
   = {| onmessage := onmessage in_flight; sent := sent in_flight;
        delivered := delivered in_flight ++ [ordinary];
        recoveries := recoveries in_flight |}).
Proof.
  apply (unrelated_message_passes_through in_flight 0 1700000000000 ClientHandler
           ordinary); [reflexivity|discriminate].
Defined.

Lemma matching_reply_fulfils_witness :
  let t' := step in_flight (Arrives recovered) in
  promise_of 0 t' = Resolved (Object [("message", Str "hello")]) ∧
  onmessage t' = ClientHandler ∧
  delivered t' = delivered in_flight ∧
  step t' (TimerFires 0) = t'.
Proof.
  apply (matching_reply_fulfils in_flight 0 1700000000000 ClientHandler
           {| timeout := true; promise := Pending |} recovered); reflexivity.
Defined.

Lemma settled_promise_is_final_witness :
  promise_of 0 (run [Arrives late; Arrives recovered] (step in_flight (TimerFires 0)))
  = promise_of 0 (step in_flight (TimerFires 0)).
Proof.
  assert (Hsettled : promise_of 0 (step in_flight (TimerFires 0)) ≠ Pending).
  { vm_compute. discriminate. }
  exact (proj1 (settled_promise_is_final (step in_flight (TimerFires 0)) 0 Hsettled)
           [Arrives late; Arrives recovered]).
Defined.

Lemma refreshServerData_replaces_lists_witness :
  keyed_by_name
    (refreshServerData
       {| tools_listed := Throw (JSError.Error "Method not found");
          prompts_listed := Normal []; resources_listed := Normal [] |}
       "serverA" both).
Proof.
  apply (proj2 (proj2 (proj2 (refreshServerData_replaces_lists
           {| tools_listed := Throw (JSError.Error "Method not found");
              prompts_listed := Normal []; resources_listed := Normal [] |}
           "serverA" both)))).
  exact both_keyed.
Defined.

Lemma status_after_connectAll_witness :
  ∃ conns,
    connectAllServers launch (Some two) [("bad", bad); ("good", good)] JSMap.empty
    = Normal conns ∧
    let status := getConnectionStatus (Some two) conns open in
    totalServers status = 2 ∧
    connectedServers status = (filter (connects launch) [("bad", bad); ("good", good)]).*1 ∧
    activeConnections status = length (filter (connects launch) (hamaServers two)) ∧
    activeConnections status ≤ totalServers status ∧
    totalTools status
    = sum_list_with (λ e, length (or_empty (listTools (launch e.1 e.2))))
        (filter (connects launch) [("bad", bad); ("good", good)]).
Proof.
  apply (status_after_connectAll launch two [("bad", bad); ("good", good)] open).
  - refine (bool_decide_unpack _ _). vm_compute. exact I.
  - apply Permutation_swap.
Defined.

Lemma close_removes_only_that_session_witness :
  ∃ st', sse_on_close "a1c9" 5 (Normal ()) open = Normal st' ∧
         activeSSETransports st' = delete "a1c9" (activeSSETransports open) ∧
         activeStreamTransports st' = activeStreamTransports open.
Proof.
  assert (Hsid : "a1c9" ≠ "") by discriminate.
  exact (proj1 (close_removes_only_that_session open "a1c9" 5 1 (Normal ()) Hsid)).
Defined.

Lemma stream_middleware_routing_witness :
  stream_middleware post_unknown_session open both (Normal ())
  = Respond (JsonError 400 (-32000) "Bad Request: No valid session ID provided").
Proof.
  apply (proj1 (proj2 (proj2 (stream_middleware_routing post_unknown_session open both
           (Normal ()))) "ffff" eq_refl eq_refl eq_refl)).
  reflexivity.
Defined.

Lemma sse_message_routing_witness :
  sse_middleware message_unknown_session open (Normal ())
  = Other (Respond (EndWith 400 "No active transport")).
Proof.
  apply (proj2 (proj2 (sse_message_routing message_unknown_session open (Normal ()))
           eq_refl eq_refl) "ffff"); reflexivity.
Defined.

Lemma older_reply_uninstalls_newer_interceptor_witness :
  let nested :=
    (callToolDirectly 1700000000005 SendReturns "toolY" (Object []) in_flight).1 in
  let t1 := step nested (Arrives recovered) in
  onmessage t1 = ClientHandler ∧
  promise_of 0 t1 = Resolved (Object [("message", Str "hello")]) ∧
  promise_of 1 t1 = promise_of 1 nested ∧
  (ClientHandler = ClientHandler →
   promise_of 1 (step t1 (Arrives ordinary)) = promise_of 1 nested ∧
   delivered (step t1 (Arrives ordinary)) = delivered nested ++ [ordinary]).
Proof.
  apply (older_reply_uninstalls_newer_interceptor
           (callToolDirectly 1700000000005 SendReturns "toolY" (Object []) in_flight).1
           0 1 1700000000000 1700000000005 ClientHandler
           {| timeout := true; promise := Pending |} recovered ordinary);
    try reflexivity; discriminate.
Defined.

(** The samples, evaluated. *)
Example status_two :
  (λ s, (totalServers s, activeConnections s, connectedServers s, totalTools s,
         activeSSESessions s, activeStreamSessions s))
    (getConnectionStatus (Some two)
       [("good", registered launch "good" good)] open)
  = (2, 1, ["good"], 1, 1, 1).
Proof. reflexivity. Qed.

Example stream_get_known :
  stream_middleware get_known_session open both (Normal ()) = Handled "b2f0".
Proof. reflexivity. Qed.
End ExtrasWitnesses.
